(** * bin_packer.py: a shallow embedding and its verified properties

    The development follows [src/bin_packer.py].  Unit heights and bin
    sizes are Python integers, hence [Z]; counters that start at zero and
    are only ever incremented ([bin_count], [cidx], [nidx]) are [nat], so a
    subscript is never negative and Python's wrap-around for negative
    subscripts cannot occur.  A subscript past the end raises [IndexError]
    and a modulo by zero raises [ZeroDivisionError]; both are results of the
    embedded functions. *)

From Stdlib Require Import ZArith Lia.
From stdpp Require Import base list sorting numbers.

Set Default Proof Using "Type".

(** ** Exceptions and results *)

Inductive exn : Set := IndexError | ZeroDivisionError.

(** [OutOfFuel] is the answer of a [while] loop whose iteration budget was
    too small; [compute_bin_count_total] shows that it never escapes. *)
Inductive result (A : Type) : Type :=
  | Ok (a : A)
  | Raise (e : exn)
  | OutOfFuel.
Arguments Ok {A} a.
Arguments Raise {A} e.
Arguments OutOfFuel {A}.

#[export] Instance result_ret : MRet result := fun A a => Ok a.
#[export] Instance result_bind : MBind result := fun A B f m =>
  match m with
  | Ok a => f a
  | Raise e => Raise e
  | OutOfFuel => OutOfFuel
  end.
#[export] Instance result_fmap : FMap result := fun A B f m =>
  match m with
  | Ok a => Ok (f a)
  | Raise e => Raise e
  | OutOfFuel => OutOfFuel
  end.

(** [l[i]] for a subscript [i >= 0]. *)
Definition getitem {A} (l : list A) (i : nat) : result A :=
  match l !! i with
  | Some x => Ok x
  | None => Raise IndexError
  end.

(** [a % b] for [a, b >= 0]. *)
Definition py_mod (a b : nat) : result nat :=
  match b with
  | O => Raise ZeroDivisionError
  | S _ => Ok (a mod b)
  end.

(** The builtin [sum]: a left-to-right accumulation starting at [0]. *)
Definition sum (l : list Z) : Z := foldl Z.add 0%Z l.

(** A [for] loop whose body may raise: the body is run on every element in
    order, threading the loop state, and the first exception ends the loop. *)
Fixpoint for_each {St A} (body : St -> A -> result St) (xs : list A) (st : St)
  : result St :=
  match xs with
  | [] => Ok st
  | x :: xs' => st' ← body st x; for_each body xs' st'
  end.

(** ** BinContainer *)

Module BinContainer.

Record t : Type := mk {
  index : nat;
  size : Z;
  count : Z;
  items : list Z
}.

(** [__init__] *)
Definition init (index : nat) (size : Z) : t :=
  {| index := index; size := size; count := 0; items := [] |}.

(** [append]: records the item and adds it to the running sum. *)
Definition append (self : t) (item : Z) : t :=
  {| index := index self;
     size := size self;
     count := (count self + item)%Z;
     items := items self ++ [item] |}.

End BinContainer.

(** ** BinManager *)

(** *** compute_bin_count *)

(** The [while] loop of [compute_bin_count]; [fuel] bounds the number of
    times the body runs, and the guard is tested before any fuel is used. *)
Fixpoint compute_bin_count_loop (fuel : nat) (unit_height_sum : Z)
    (bin_sizes : list Z) (container_sum : Z) (bin_count : nat) : result nat :=
  if (container_sum <? unit_height_sum)%Z then
    match fuel with
    | O => OutOfFuel
    | S fuel' =>
        c ← getitem bin_sizes bin_count;
        compute_bin_count_loop fuel' unit_height_sum bin_sizes
          (container_sum + c)%Z (S bin_count)
    end
  else Ok bin_count.

(** Every iteration reads one more entry of [bin_sizes], so one more
    iteration than there are entries always suffices. *)
Definition compute_bin_count (bin_items bin_sizes : list Z) : result nat :=
  let unit_height_sum := sum bin_items in
  compute_bin_count_loop (S (length bin_sizes)) unit_height_sum bin_sizes 0%Z 0.

(** *** split_values_by_size *)

(** [sorted(values, reverse=...)] on integers, as a stable insertion sort. *)
Fixpoint insert_by (before : Z -> Z -> bool) (x : Z) (l : list Z) : list Z :=
  match l with
  | [] => [x]
  | y :: l' => if before x y then x :: l else y :: insert_by before x l'
  end.

Definition sorted (values : list Z) (reverse : bool) : list Z :=
  foldr (insert_by (if reverse then Z.geb else Z.leb)) [] values.

(** The inner lists are shared: [ary] names a list object that is also an
    element of [sets], and [ary.append] is seen through [sets].  The list
    objects live in [store], addressed by position; [sets] holds addresses. *)
Record split_state : Type := mk_split {
  store : list (list Z);
  sets : list nat;
  ary : nat;
  val : Z
}.

(** [ary = []] followed by [ary.append(item)]-style updates. *)
Definition store_append (a : nat) (item : Z) (h : list (list Z)) : list (list Z) :=
  alter (fun l => l ++ [item]) a h.

Definition split_body (st : split_state) (item : Z) : split_state :=
  if (val st =? item)%Z then
    {| store := store_append (ary st) item (store st);
       sets := sets st; ary := ary st; val := val st |}
  else
    let a := length (store st) in
    {| store := store_append a item (store st ++ [[]]);
       sets := sets st ++ [a];
       ary := a;
       val := item |}.

(** What the caller sees of the returned [sets]. *)
Definition read_sets (st : split_state) : list (list Z) :=
  (fun a => default [] (store st !! a)) <$> sets st.

Definition split_values_by_size (values : list Z) (large_values_first : bool)
  : result (list (list Z)) :=
  if (length values <? 1)%nat then Ok []
  else
    let sorted_list := sorted values large_values_first in
    v ← getitem sorted_list 0;
    let st0 := {| store := [[]]; sets := [0]; ary := 0; val := v |} in
    Ok (read_sets (foldl split_body st0 sorted_list)).

(** *** can_add_to_bin *)

Definition can_add_to_bin (bin_container : BinContainer.t) (item : Z) : bool :=
  let bin_size := BinContainer.size bin_container in
  (BinContainer.count bin_container + item <=? bin_size)%Z.

(** The comprehension [[BinContainer(i, bin_sizes[i]) for i in range(bin_count)]]. *)
Fixpoint allocate_from (bin_sizes : list Z) (i n : nat)
  : result (list BinContainer.t) :=
  match n with
  | O => Ok []
  | S n' =>
      sz ← getitem bin_sizes i;
      rest ← allocate_from bin_sizes (S i) n';
      Ok (BinContainer.init i sz :: rest)
  end.

Definition allocate_bins (bin_sizes : list Z) (bin_count : nat)
  : result (list BinContainer.t) :=
  allocate_from bin_sizes 0 bin_count.

(** *** order_sequentially *)

Record seq_state : Type := mk_seq {
  seq_bins : list BinContainer.t;
  seq_cidx : nat
}.

Definition seq_body (st : seq_state) (item : Z) : result seq_state :=
  b ← getitem (seq_bins st) (seq_cidx st);
  if can_add_to_bin b item then
    Ok {| seq_bins := alter (fun b => BinContainer.append b item)
                            (seq_cidx st) (seq_bins st);
          seq_cidx := seq_cidx st |}
  else
    let cidx := S (seq_cidx st) in
    _ ← getitem (seq_bins st) cidx;
    Ok {| seq_bins := alter (fun b => BinContainer.append b item)
                            cidx (seq_bins st);
          seq_cidx := cidx |}.

Definition order_sequentially (values bin_sizes : list Z)
    (large_items_at_top : bool) : result (list BinContainer.t) :=
  bin_count ← compute_bin_count values bin_sizes;
  bin_list ← allocate_bins bin_sizes bin_count;
  value_sets ← split_values_by_size values large_items_at_top;
  st ← for_each (fun st value_set => for_each seq_body value_set st)
         value_sets {| seq_bins := bin_list; seq_cidx := 0 |};
  Ok (seq_bins st).

(** *** evenly_distribute *)

(** [notices] is the sequence of "Container overflow ... Item skipped"
    lines: each carries the skipped item and the bin it was offered to. *)
Record rr_state : Type := mk_rr {
  rr_bins : list BinContainer.t;
  rr_cidx : nat;
  rr_nidx : nat;
  rr_notices : list (Z * BinContainer.t)
}.

Definition rr_body (bin_count : nat) (st : rr_state) (item : Z)
  : result rr_state :=
  cidx ← py_mod (rr_nidx st) bin_count;
  b ← getitem (rr_bins st) cidx;
  if can_add_to_bin b item then
    Ok {| rr_bins := alter (fun b => BinContainer.append b item)
                           cidx (rr_bins st);
          rr_cidx := cidx;
          rr_nidx := S (rr_nidx st);
          rr_notices := rr_notices st |}
  else
    Ok {| rr_bins := rr_bins st;
          rr_cidx := cidx;
          rr_nidx := S (rr_nidx st);
          rr_notices := rr_notices st ++ [(item, b)] |}.

Definition rr_init (bin_list : list BinContainer.t) : rr_state :=
  {| rr_bins := bin_list; rr_cidx := 0; rr_nidx := 0; rr_notices := [] |}.

(** The whole run, with the final loop state (bins and notices). *)
Definition evenly_distribute_run (values bin_sizes : list Z)
    (large_items_at_top : bool) : result rr_state :=
  bin_count ← compute_bin_count values bin_sizes;
  bin_list ← allocate_bins bin_sizes bin_count;
  value_sets ← split_values_by_size values large_items_at_top;
  for_each (fun st value_set => for_each (rr_body bin_count) value_set st)
    value_sets (rr_init bin_list).

Definition evenly_distribute (values bin_sizes : list Z)
    (large_items_at_top : bool) : result (list BinContainer.t) :=
  rr_bins <$> evenly_distribute_run values bin_sizes large_items_at_top.

(** ** Vocabulary of the properties *)

(** What the walk over the prefix sums can end with. *)
Definition walk_post (total : Z) (bin_sizes : list Z) (r : result nat) : Prop :=
  match r with
  | Ok n =>
      n <= length bin_sizes
      /\ (total <= sum (take n bin_sizes))%Z
      /\ forall j, j < n -> (sum (take j bin_sizes) < total)%Z
  | Raise IndexError =>
      forall j, (sum (take j bin_sizes) < total)%Z
  | Raise ZeroDivisionError => False
  | OutOfFuel => False
  end.

(** The order requested by the flag: [not_after] is the order of the sorted
    list, [before] its strict part. *)
Definition not_after (large_values_first : bool) (x y : Z) : Prop :=
  if large_values_first then (y <= x)%Z else (x <= y)%Z.

Definition before (large_values_first : bool) (x y : Z) : Prop :=
  if large_values_first then (y < x)%Z else (x < y)%Z.

(** A group and the value its items share. *)
Definition group_of (g : list Z) (v : Z) : Prop :=
  g <> [] /\ Forall (fun x => x = v) g.

(** The references held by [sets] are exactly the list objects of the store,
    in allocation order, and [ary] is the most recent one. *)
Definition split_inv (st : split_state) : Prop :=
  sets st = seq 0 (length (store st))
  /\ S (ary st) = length (store st).

(** The loop invariant: [done] is the part of the sorted list consumed so
    far.  The last group is the open one and holds copies of [val]. *)
Definition grouping (reverse : bool) (st : split_state) (done : list Z) : Prop :=
  split_inv st
  /\ exists gs g vals,
       store st = gs ++ [g]
       /\ group_of g (val st)
       /\ Forall2 group_of gs vals
       /\ StronglySorted (before reverse) (vals ++ [val st])
       /\ concat (store st) = done.

(** Everything placed so far, bin after bin. *)
Definition placed_items (bins : list BinContainer.t) : list Z :=
  concat (BinContainer.items <$> bins).

(** The running sum of a bin is the sum of its items. *)
Definition consistent (b : BinContainer.t) : Prop :=
  BinContainer.count b = sum (BinContainer.items b).

(** The loop state just before the [k]-th item of [order] is offered. *)
Definition rr_before (bin_count : nat) (bin_list : list BinContainer.t)
    (order : list Z) (k : nat) : result rr_state :=
  for_each (rr_body bin_count) (take k order) (rr_init bin_list).

(** Whether the [k]-th item fits the bin the rotation assigns to it, given
    what that bin holds at that moment. *)
Definition fits_at (bin_count : nat) (bin_list : list BinContainer.t)
    (order : list Z) (k : nat) : bool :=
  match rr_before bin_count bin_list order k, order !! k, py_mod k bin_count with
  | Ok st, Some item, Ok target =>
      match rr_bins st !! target with
      | Some b => can_add_to_bin b item
      | None => false
      end
  | _, _, _ => false
  end.

(** The items that did not fit their assigned bin when they were offered,
    in the order they were offered. *)
Definition did_not_fit (bin_count : nat) (bin_list : list BinContainer.t)
    (order : list Z) : list Z :=
  omap (fun k => if fits_at bin_count bin_list order k then None else order !! k)
       (seq 0 (length order)).

(** The items named by the overflow notices. *)
Definition dropped_items (st : rr_state) : list Z := fst <$> rr_notices st.

(** One item offered to bin [target]: either appended there, or skipped
    with a notice; no other bin is involved. *)
Definition offered_to (target : nat) (st : rr_state) (item : Z)
    (st' : rr_state) : Prop :=
  rr_cidx st' = target
  /\ exists b,
       rr_bins st !! target = Some b
       /\ if can_add_to_bin b item then
            rr_bins st' = alter (fun b => BinContainer.append b item)
                                target (rr_bins st)
            /\ rr_notices st' = rr_notices st
          else
            rr_bins st' = rr_bins st
            /\ rr_notices st' = rr_notices st ++ [(item, b)].

(** A bin that holds something is not over-full. *)
Definition within_capacity (b : BinContainer.t) : Prop :=
  BinContainer.items b <> [] ->
  (BinContainer.count b <= BinContainer.size b)%Z.

(** [values.count(v)]: how many items of the collection have the value [v]. *)
Definition occurrences (v : Z) (values : list Z) : nat :=
  length (filter (fun x => x = v) values).

(** The partition described by values alone: one group for each distinct
    value, holding as many copies of it as the collection does, the groups
    taken in the order of their values. *)
Definition runs_by_value (values : list Z) (large_values_first : bool)
  : list (list Z) :=
  (fun v => replicate (occurrences v values) v)
    <$> sorted (remove_dups values) large_values_first.

(** A bin that nothing has been placed in. *)
Definition untouched (b : BinContainer.t) : Prop :=
  BinContainer.items b = [] /\ BinContainer.count b = 0%Z.

(** A bin that can be over its capacity only when the first item placed in
    it is, on its own, larger than the capacity. *)
Definition fits_unless_first (b : BinContainer.t) : Prop :=
  forall x rest,
    BinContainer.items b = x :: rest ->
    (x <= BinContainer.size b)%Z ->
    (BinContainer.count b <= BinContainer.size b)%Z.

(** The bins as they were built from the capacity list: the bin at
    position [j] carries index [j] and capacity [bin_sizes[j]], and every
    running sum is the sum of the items held. *)
Definition framed (bin_sizes : list Z) (bin_count : nat)
    (bins : list BinContainer.t) : Prop :=
  BinContainer.index <$> bins = seq 0 bin_count
  /\ BinContainer.size <$> bins = take bin_count bin_sizes
  /\ Forall consistent bins.

(** How many items bin [j] has been offered so far: the items it holds and
    the items skipped with a notice that names it. *)
Definition offers (j : nat) (st : rr_state) : nat :=
  length (default [] (BinContainer.items <$> rr_bins st !! j))
  + length (filter (fun p => BinContainer.index (snd p) = j) (rr_notices st)).

(** The sequential loop on unit items: the bins before the cursor are full
    and the bin under the cursor is not over-full, so together they hold
    everything consumed so far ([done]). *)
Definition filling (bin_sizes : list Z) (n : nat) (st : seq_state)
    (done : list Z) : Prop :=
  (exists bc,
     seq_bins st !! seq_cidx st = Some bc
     /\ (BinContainer.count bc <= BinContainer.size bc)%Z
     /\ (sum (take (seq_cidx st) bin_sizes) + BinContainer.count bc)%Z = sum done)
  /\ Forall untouched (drop (S (seq_cidx st)) (seq_bins st))
  /\ framed bin_sizes n (seq_bins st)
  /\ Forall (fun b => (BinContainer.count b <= BinContainer.size b)%Z) (seq_bins st).

(** The round-robin loop on unit items while nothing has been skipped:
    every bin has had its turns and holds one item for each of them. *)
Definition taking_turns (bin_sizes : list Z) (n : nat) (st : rr_state) : Prop :=
  rr_notices st = []
  /\ framed bin_sizes n (rr_bins st)
  /\ (forall j, j < n -> rr_nidx st <= j + n * offers j st < rr_nidx st + n)
  /\ Forall (fun b => BinContainer.count b
                      = Z.of_nat (length (BinContainer.items b))) (rr_bins st).

(** What the returned state [fin] shows of the offer of [item] to bin
    [target], made when the loop was in state [st]: an item that fitted
    sits in that bin right after what the bin held then, and an item that
    did not fit is named, with the bin as it was, in a notice that follows
    the notices written before. *)
Definition recorded_in (target : nat) (st : rr_state) (item : Z)
    (fin : rr_state) : Prop :=
  exists b bfin,
    rr_bins st !! target = Some b
    /\ rr_bins fin !! target = Some bfin
    /\ if can_add_to_bin b item then
         BinContainer.items b ++ [item] `prefix_of` BinContainer.items bfin
       else
         rr_notices st ++ [(item, b)] `prefix_of` rr_notices fin.

(** * Properties *)

(** ** Scenarios of the demonstration program *)

Example scenario_simple :
  order_sequentially [1; 2; 1]%Z [30]%Z true
  = Ok [BinContainer.mk 0 30 4 [2; 1; 1]%Z].
Proof. reflexivity. Qed.

Example scenario_two_bins :
  compute_bin_count (replicate 45 1%Z) [30; 30; 30; 30]%Z = Ok 2
  /\ (rr_notices <$> evenly_distribute_run (replicate 45 1%Z)
                       [30; 30; 30; 30]%Z false) = Ok [].
Proof. split; reflexivity. Qed.

Example scenario_overflow :
  compute_bin_count (replicate 57 1 ++ replicate 38 2)%Z
    [2; 40; 40; 40; 40]%Z = Ok 5
  /\ fmap (M:=result) (fmap (M:=list) BinContainer.count)
       (evenly_distribute (replicate 57 1 ++ replicate 38 2)%Z
         [2; 40; 40; 40; 40]%Z false)
     = Ok [2; 26; 27; 27; 27]%Z.
Proof. split; reflexivity. Qed.

(** Outside the data model of the collection (sizes and capacities of at
    least 1) the planner can ask for no bin although there are items, or
    stop before the capacities are exhausted. *)
Example zero_size_item_no_bin :
  compute_bin_count [0]%Z [3]%Z = Ok 0
  /\ evenly_distribute [0]%Z [3]%Z false = Raise ZeroDivisionError
  /\ order_sequentially [0]%Z [3]%Z false = Raise IndexError.
Proof. repeat split. Qed.

Example negative_capacity_early_stop :
  compute_bin_count [3]%Z [5; -10]%Z = Ok 1.
Proof. reflexivity. Qed.

(** ** Auxiliary facts: sums, subscripts and loops *)

Section Sums.

Lemma foldl_add_shift (a : Z) (l : list Z) :
  foldl Z.add a l = (a + sum l)%Z.
Proof.
  unfold sum. revert a. induction l as [|x l IH]; intros a; simpl.
  - lia.
  - rewrite (IH (a + x)%Z), (IH (0 + x)%Z). lia.
Qed.

Lemma sum_nil : sum [] = 0%Z.
Proof. reflexivity. Qed.

Lemma sum_cons (x : Z) (l : list Z) : sum (x :: l) = (x + sum l)%Z.
Proof. unfold sum at 1. simpl. apply foldl_add_shift. Qed.

Lemma sum_app (l1 l2 : list Z) : sum (l1 ++ l2) = (sum l1 + sum l2)%Z.
Proof.
  induction l1 as [|x l1 IH]; simpl.
  - rewrite sum_nil. lia.
  - rewrite !sum_cons, IH. lia.
Qed.

Lemma sum_snoc (l : list Z) (x : Z) : sum (l ++ [x]) = (sum l + x)%Z.
Proof. rewrite sum_app, sum_cons, sum_nil. lia. Qed.

Lemma sum_Permutation (l1 l2 : list Z) : l1 ≡ₚ l2 -> sum l1 = sum l2.
Proof.
  induction 1 as [|x l1 l2 _ IH|x y l|l1 l2 l3 _ IH1 _ IH2].
  - reflexivity.
  - rewrite !sum_cons, IH. reflexivity.
  - rewrite !sum_cons. lia.
  - congruence.
Qed.

Lemma sum_take_S (l : list Z) (k : nat) (c : Z) :
  l !! k = Some c -> sum (take (S k) l) = (sum (take k l) + c)%Z.
Proof. intros Hk. rewrite (take_S_r _ _ _ Hk). apply sum_snoc. Qed.

Lemma sum_nonneg (l : list Z) : Forall (fun c => 0 <= c)%Z l -> (0 <= sum l)%Z.
Proof.
  induction 1 as [|x l Hx _ IH].
  - rewrite sum_nil. lia.
  - rewrite sum_cons. lia.
Qed.

(** With non-negative entries the prefix sums never exceed the total. *)
Lemma sum_take_le (l : list Z) (k : nat) :
  Forall (fun c => 0 <= c)%Z l -> (sum (take k l) <= sum l)%Z.
Proof.
  intros Hl. rewrite <- (take_drop k l) at 2. rewrite sum_app.
  assert (0 <= sum (drop k l))%Z; [|lia].
  apply sum_nonneg, Forall_drop, Hl.
Qed.

Lemma sum_pos_nonempty (l : list Z) :
  l <> [] -> Forall (fun v => 1 <= v)%Z l -> (1 <= sum l)%Z.
Proof.
  intros Hne Hl. destruct Hl as [|x l Hx Hl]; [done|].
  rewrite sum_cons.
  assert (0 <= sum l)%Z; [|lia].
  apply sum_nonneg. eapply List.Forall_impl; [|exact Hl]. simpl. lia.
Qed.

End Sums.

Section Subscripts.
Context {A : Type}.

Lemma getitem_Ok (l : list A) (i : nat) (x : A) :
  getitem l i = Ok x <-> l !! i = Some x.
Proof. unfold getitem. destruct (l !! i); split; congruence. Qed.

Lemma getitem_IndexError (l : list A) (i : nat) :
  getitem l i = Raise IndexError <-> length l <= i.
Proof.
  unfold getitem. rewrite <- lookup_ge_None.
  destruct (l !! i); split; congruence.
Qed.

Lemma getitem_cases (l : list A) (i : nat) :
  (exists x, l !! i = Some x /\ getitem l i = Ok x)
  \/ (length l <= i /\ getitem l i = Raise IndexError).
Proof.
  unfold getitem. destruct (l !! i) as [x|] eqn:E.
  - left. eauto.
  - right. split; [by apply lookup_ge_None|done].
Qed.

End Subscripts.

Section Loops.
Context {St A : Type}.

Lemma for_each_app (body : St -> A -> result St) (xs ys : list A) (st : St) :
  for_each body (xs ++ ys) st = st' ← for_each body xs st; for_each body ys st'.
Proof.
  revert st. induction xs as [|x xs IH]; intros st; simpl; [done|].
  destruct (body st x) as [st'| |]; simpl; [apply IH|done|done].
Qed.

(** The nested [for value_set in value_sets: for item in value_set] loop
    visits the items of the concatenation, in order. *)
Lemma for_each_nested (body : St -> A -> result St) (xss : list (list A))
    (st : St) :
  for_each (fun st xs => for_each body xs st) xss st
  = for_each body (concat xss) st.
Proof.
  revert st. induction xss as [|xs xss IH]; intros st; simpl; [done|].
  rewrite for_each_app.
  destruct (for_each body xs st) as [st'| |]; simpl; [apply IH|done|done].
Qed.

Lemma for_each_snoc (body : St -> A -> result St) (xs : list A) (x : A)
    (st : St) :
  for_each body (xs ++ [x]) st = st' ← for_each body xs st; body st' x.
Proof.
  rewrite for_each_app.
  destruct (for_each body xs st) as [st'| |]; simpl; [|done|done].
  by destruct (body st' x).
Qed.

(** A loop that finishes normally also finished normally on every prefix. *)
Lemma for_each_prefix_Ok (body : St -> A -> result St) (xs ys : list A)
    (st fin : St) :
  for_each body (xs ++ ys) st = Ok fin ->
  exists mid, for_each body xs st = Ok mid /\ for_each body ys mid = Ok fin.
Proof.
  rewrite for_each_app.
  destruct (for_each body xs st) as [mid| |]; simpl; [eauto|done|done].
Qed.

End Loops.

(** ** compute_bin_count *)

Section ComputeBinCount.
Variables (total : Z) (bin_sizes : list Z).

Lemma compute_bin_count_loop_spec (fuel k : nat) (container_sum : Z) :
  k <= length bin_sizes ->
  length bin_sizes < k + fuel ->
  container_sum = sum (take k bin_sizes) ->
  (forall j, j < k -> (sum (take j bin_sizes) < total)%Z) ->
  walk_post total bin_sizes
    (compute_bin_count_loop fuel total bin_sizes container_sum k).
Proof.
  revert k container_sum.
  induction fuel as [|fuel IH]; intros k cs Hk Hfuel Hcs Hbelow; [lia|].
  simpl. destruct (Z.ltb_spec cs total) as [Hlt|Hge].
  - destruct (getitem_cases bin_sizes k) as [(c & Hc & ->)|[Hout ->]]; simpl.
    + apply IH.
      * apply lookup_lt_Some in Hc. lia.
      * lia.
      * rewrite (sum_take_S _ _ _ Hc). by subst.
      * intros j Hj. destruct (decide (j = k)) as [->|]; [by subst|].
        apply Hbelow. lia.
    + intros j. destruct (decide (j < k)) as [Hj|Hj]; [by apply Hbelow|].
      rewrite take_ge by lia. rewrite <- (take_ge bin_sizes k) by lia.
      by subst.
  - simpl. repeat split; [done|subst; lia|done].
Qed.

End ComputeBinCount.

Lemma compute_bin_count_post (bin_items bin_sizes : list Z) :
  walk_post (sum bin_items) bin_sizes (compute_bin_count bin_items bin_sizes).
Proof.
  unfold compute_bin_count. apply compute_bin_count_loop_spec.
  - lia.
  - lia.
  - reflexivity.
  - intros j Hj. lia.
Qed.

(** The iteration budget is never exhausted, and the only exception is the
    subscript error. *)
Lemma compute_bin_count_total (bin_items bin_sizes : list Z) :
  (exists n, compute_bin_count bin_items bin_sizes = Ok n)
  \/ compute_bin_count bin_items bin_sizes = Raise IndexError.
Proof.
  pose proof (compute_bin_count_post bin_items bin_sizes) as H.
  destruct (compute_bin_count bin_items bin_sizes) as [n|[]|]; simpl in H;
    [eauto|by right|done|done].
Qed.

(** More fuel than needed does not change a result. *)
Lemma compute_bin_count_loop_fuel_mono (fuel fuel' : nat) total bin_sizes cs k r :
  compute_bin_count_loop fuel total bin_sizes cs k = r ->
  r <> OutOfFuel -> fuel <= fuel' ->
  compute_bin_count_loop fuel' total bin_sizes cs k = r.
Proof.
  revert fuel' cs k. induction fuel as [|fuel IH]; intros fuel' cs k Hr Hne Hle.
  - simpl in Hr. destruct fuel'; simpl; destruct (cs <? total)%Z; congruence.
  - destruct fuel' as [|fuel']; [lia|]. simpl in *.
    destruct (cs <? total)%Z; [|done].
    destruct (getitem bin_sizes k) as [c| |]; simpl in *; [|done|done].
    apply IH; [done|done|lia].
Qed.

(** ** sorted *)

Section Sorted.
Variable reverse : bool.

Let cmp : Z -> Z -> bool := if reverse then Z.geb else Z.leb.

Lemma cmp_spec (x y : Z) : cmp x y = true <-> not_after reverse x y.
Proof.
  unfold cmp, not_after. destruct reverse.
  - rewrite Z.geb_le. done.
  - apply Z.leb_le.
Qed.

Lemma not_after_total (x y : Z) : not_after reverse x y \/ not_after reverse y x.
Proof. unfold not_after. destruct reverse; lia. Qed.

Lemma not_after_trans (x y z : Z) :
  not_after reverse x y -> not_after reverse y z -> not_after reverse x z.
Proof. unfold not_after. destruct reverse; lia. Qed.

Lemma not_after_neq_before (x y : Z) :
  not_after reverse x y -> x <> y -> before reverse x y.
Proof. unfold not_after, before. destruct reverse; lia. Qed.

Lemma before_trans (x y z : Z) :
  before reverse x y -> before reverse y z -> before reverse x z.
Proof. unfold before. destruct reverse; lia. Qed.

Lemma insert_by_Permutation (x : Z) (l : list Z) :
  insert_by cmp x l ≡ₚ x :: l.
Proof.
  induction l as [|y l IH]; simpl; [done|].
  destruct (cmp x y); [done|].
  rewrite IH. apply Permutation_swap.
Qed.

Lemma insert_by_sorted (x : Z) (l : list Z) :
  StronglySorted (not_after reverse) l ->
  StronglySorted (not_after reverse) (insert_by cmp x l).
Proof.
  induction l as [|y l IH]; intros Hl; simpl.
  - repeat constructor.
  - apply StronglySorted_cons in Hl as [Hy Hl].
    destruct (cmp x y) eqn:E.
    + apply cmp_spec in E. apply StronglySorted_cons. split.
      * constructor; [done|].
        eapply List.Forall_impl; [|exact Hy].
        intros z Hz. by eapply not_after_trans.
      * by apply StronglySorted_cons.
    + apply StronglySorted_cons. split; [|by apply IH].
      rewrite insert_by_Permutation. constructor; [|done].
      destruct (not_after_total x y) as [Hxy|Hyx]; [|done].
      apply cmp_spec in Hxy. congruence.
Qed.

Lemma sorted_Permutation (values : list Z) : sorted values reverse ≡ₚ values.
Proof.
  unfold sorted. fold cmp.
  induction values as [|x l IH]; simpl; [done|].
  by rewrite insert_by_Permutation, IH.
Qed.

Lemma sorted_StronglySorted (values : list Z) :
  StronglySorted (not_after reverse) (sorted values reverse).
Proof.
  unfold sorted. fold cmp.
  induction values as [|x l IH]; simpl; [constructor|].
  by apply insert_by_sorted.
Qed.

Lemma sorted_length (values : list Z) :
  length (sorted values reverse) = length values.
Proof. by rewrite sorted_Permutation. Qed.

End Sorted.

(** ** split_values_by_size *)

Lemma read_all_store (h : list (list Z)) :
  (fun a => default [] (h !! a)) <$> seq 0 (length h) = h.
Proof.
  apply list_eq. intros i. rewrite list_lookup_fmap.
  destruct (decide (i < length h)) as [Hi|Hi].
  - rewrite lookup_seq_lt by done. simpl.
    destruct (lookup_lt_is_Some_2 h i Hi) as [g Hg]. by rewrite Hg.
  - rewrite lookup_seq_ge by lia. simpl. symmetry. apply lookup_ge_None. lia.
Qed.

Lemma read_sets_store (st : split_state) : split_inv st -> read_sets st = store st.
Proof. intros [Hsets _]. unfold read_sets. rewrite Hsets. apply read_all_store. Qed.

Lemma store_append_last (gs : list (list Z)) (g : list Z) (item : Z) :
  store_append (length gs) item (gs ++ [g]) = gs ++ [g ++ [item]].
Proof.
  unfold store_append.
  replace (length gs) with (length gs + 0) by lia.
  by rewrite alter_app_r.
Qed.

Section Grouping.
Variable reverse : bool.

Lemma split_body_grouping (st : split_state) (done : list Z) (item : Z) :
  grouping reverse st done ->
  not_after reverse (val st) item ->
  grouping reverse (split_body st item) (done ++ [item]).
Proof.
  intros [[Hsets Hary] (gs & g & vals & Hstore & [Hne Hg] & Hgs & Hvals & Hcat)] Hle.
  assert (Hlen : length (store st) = S (length gs)).
  { rewrite Hstore, length_app. simpl. lia. }
  unfold split_body. destruct (Z.eqb_spec (val st) item) as [Heq|Hneq].
  - assert (ary st = length gs) as -> by lia.
    rewrite Hstore, store_append_last.
    split; [split; simpl|].
    + rewrite Hsets, Hstore, !length_app. done.
    + rewrite !length_app. simpl. lia.
    + exists gs, (g ++ [item]), vals. simpl. repeat split.
      * by destruct g.
      * apply Forall_app. split; [done|]. by repeat constructor.
      * done.
      * done.
      * rewrite <- Hcat, Hstore, !concat_app. simpl.
        by rewrite !app_nil_r, app_assoc.
  - rewrite store_append_last.
    split; [split; simpl|].
    + rewrite Hsets, !length_app, seq_app. simpl. done.
    + rewrite !length_app. simpl. lia.
    + exists (store st), [item], (vals ++ [val st]). simpl. repeat split.
      * done.
      * by repeat constructor.
      * rewrite Hstore. apply Forall2_app; [done|]. by repeat constructor.
      * apply StronglySorted_app. repeat split.
        -- intros x y Hx Hy. apply list_elem_of_singleton in Hy as ->.
           assert (Hlast : before reverse (val st) item)
             by by apply not_after_neq_before.
           apply elem_of_app in Hx as [Hx|Hx].
           ++ eapply before_trans; [|exact Hlast].
              apply StronglySorted_app in Hvals as (Hv & _ & _).
              apply Hv; [done|]. by apply list_elem_of_singleton.
           ++ by apply list_elem_of_singleton in Hx as ->.
        -- done.
        -- repeat constructor.
      * rewrite concat_app, Hcat. simpl. done.
Qed.

Lemma split_loop_grouping (rest : list Z) (st : split_state) (done : list Z) :
  StronglySorted (not_after reverse) rest ->
  Forall (not_after reverse (val st)) rest ->
  grouping reverse st done ->
  grouping reverse (foldl split_body st rest) (done ++ rest).
Proof.
  revert st done. induction rest as [|item rest IH]; intros st done Hs Hv Hinv.
  - by rewrite app_nil_r.
  - simpl. rewrite (cons_middle item done rest), app_assoc.
    apply StronglySorted_cons in Hs as [Hitem Hs].
    inversion Hv as [|? ? Hle Hv']; subst.
    apply IH; [done| |by apply split_body_grouping].
    unfold split_body. destruct (Z.eqb_spec (val st) item); simpl; done.
Qed.

(** The value of [split_values_by_size] on a non-empty collection. *)
Lemma split_values_by_size_nonempty (values : list Z) :
  values <> [] ->
  exists groups vals,
    split_values_by_size values reverse = Ok groups
    /\ Forall2 group_of groups vals
    /\ StronglySorted (before reverse) vals
    /\ concat groups = sorted values reverse.
Proof.
  intros Hne. unfold split_values_by_size.
  destruct (Nat.ltb_spec (length values) 1) as [Hlen|Hlen].
  { destruct values; [done|simpl in Hlen; lia]. }
  pose proof (sorted_length reverse values) as Hsl.
  pose proof (sorted_StronglySorted reverse values) as Hss.
  destruct (sorted values reverse) as [|v rest] eqn:Hsorted;
    [simpl in Hsl; lia|].
  simpl.
  apply StronglySorted_cons in Hss as [Hv Hss].
  set (st1 := split_body {| store := [[]]; sets := [0]; ary := 0; val := v |} v).
  assert (Hinv : grouping reverse st1 [v]).
  { unfold st1, split_body. simpl. rewrite Z.eqb_refl.
    split; [by split|].
    exists [], [v], []. simpl. repeat split; try done; by repeat constructor. }
  assert (Hval : val st1 = v).
  { unfold st1, split_body. simpl. by rewrite Z.eqb_refl. }
  rewrite <- Hval in Hv.
  pose proof (split_loop_grouping rest st1 [v] Hss Hv Hinv) as [Hsi Hfin].
  destruct Hfin as (gs & g & vals & Hstore & Hg & Hgs & Hvals & Hcat).
  exists (gs ++ [g]), (vals ++ [val (foldl split_body st1 rest)]).
  rewrite (read_sets_store _ Hsi), Hstore. repeat split.
  - apply Forall2_app; [done|]. constructor; [done|constructor].
  - done.
  - by rewrite <- Hstore, Hcat.
Qed.

End Grouping.

Lemma split_values_by_size_empty (large_values_first : bool) :
  split_values_by_size [] large_values_first = Ok [].
Proof. reflexivity. Qed.

(** [split_values_by_size] never raises, and its groups concatenate to the
    sorted collection. *)
Lemma split_values_by_size_concat (values : list Z) (large_values_first : bool) :
  exists groups,
    split_values_by_size values large_values_first = Ok groups
    /\ concat groups = sorted values large_values_first.
Proof.
  destruct values as [|x values].
  - exists []. done.
  - destruct (split_values_by_size_nonempty large_values_first (x :: values))
      as (groups & vals & Hrun & _ & _ & Hcat); [done|].
    eauto.
Qed.

(** ** Allocation of the bin containers *)

Lemma allocate_from_Ok (bin_sizes : list Z) (n i : nat) :
  i + n <= length bin_sizes ->
  exists bins,
    allocate_from bin_sizes i n = Ok bins
    /\ length bins = n
    /\ forall j, j < n ->
         exists sz, bin_sizes !! (i + j) = Some sz
                    /\ bins !! j = Some (BinContainer.init (i + j) sz).
Proof.
  revert i. induction n as [|n IH]; intros i Hle; simpl.
  - exists []. split; [done|]. split; [done|]. intros j Hj. lia.
  - destruct (getitem_cases bin_sizes i) as [(sz & Hsz & ->)|[Hout _]]; [|lia].
    destruct (IH (S i)) as (rest & -> & Hlen & Hrest); [lia|]. simpl.
    eexists. split; [done|]. split; [simpl; lia|].
    intros [|j] Hj.
    + exists sz. rewrite Nat.add_0_r. done.
    + destruct (Hrest j) as (sz' & H1 & H2); [lia|].
      exists sz'. replace (i + S j) with (S i + j) by lia. done.
Qed.

Lemma allocate_bins_Ok (bin_sizes : list Z) (n : nat) :
  n <= length bin_sizes ->
  exists bins,
    allocate_bins bin_sizes n = Ok bins
    /\ length bins = n
    /\ forall j, j < n ->
         exists sz, bin_sizes !! j = Some sz
                    /\ bins !! j = Some (BinContainer.init j sz).
Proof. intros Hn. by apply (allocate_from_Ok bin_sizes n 0). Qed.

Lemma allocate_from_fresh (bin_sizes : list Z) (n i : nat) bins :
  allocate_from bin_sizes i n = Ok bins ->
  length bins = n
  /\ Forall (fun b => BinContainer.items b = [] /\ BinContainer.count b = 0%Z) bins.
Proof.
  revert i bins. induction n as [|n IH]; intros i bins; simpl.
  - intros [= <-]. by split.
  - destruct (getitem bin_sizes i) as [sz| |]; simpl; [|done|done].
    destruct (allocate_from bin_sizes (S i) n) as [rest| |] eqn:E; simpl;
      [|done|done].
    intros [= <-]. destruct (IH _ _ E) as [Hlen Hall].
    split; [simpl; lia|]. by constructor.
Qed.

Lemma placed_items_fresh (bins : list BinContainer.t) :
  Forall (fun b => BinContainer.items b = [] /\ BinContainer.count b = 0%Z) bins ->
  placed_items bins = [] /\ Forall consistent bins.
Proof.
  unfold placed_items. induction 1 as [|b bins [Hi Hc] _ [IH1 IH2]]; csimpl.
  - done.
  - rewrite Hi, IH1. split; [done|]. constructor; [|done].
    unfold consistent. by rewrite Hi, Hc.
Qed.

(** ** Effect of one [append] on the list of bins *)

Section Append.
Variable item : Z.

Let put (b : BinContainer.t) : BinContainer.t := BinContainer.append b item.

Lemma placed_items_append (bins : list BinContainer.t) (i : nat) b :
  bins !! i = Some b ->
  placed_items (alter put i bins) ≡ₚ item :: placed_items bins.
Proof.
  unfold placed_items. revert i.
  induction bins as [|b0 bins IH]; intros i Hi; [done|].
  destruct i as [|i]; simpl in *.
  - rewrite <- app_assoc. simpl.
    by rewrite <- Permutation_middle.
  - rewrite (IH _ Hi). by rewrite <- Permutation_middle.
Qed.

Lemma consistent_append (bins : list BinContainer.t) (i : nat) :
  Forall consistent bins -> Forall consistent (alter put i bins).
Proof.
  intros Hall. revert i. induction Hall as [|b bins Hb Hbins IH]; intros i.
  - constructor.
  - destruct i as [|i]; simpl; constructor.
    + unfold consistent, put in *. simpl. rewrite sum_snoc. lia.
    + done.
    + done.
    + apply IH.
Qed.

Lemma count_sum_append (bins : list BinContainer.t) (i : nat) b :
  bins !! i = Some b ->
  sum (BinContainer.count <$> alter put i bins)
  = (sum (BinContainer.count <$> bins) + item)%Z.
Proof.
  revert i. induction bins as [|b0 bins IH]; intros i Hi; [done|].
  destruct i as [|i]; csimpl in *.
  - rewrite !sum_cons. simpl. lia.
  - rewrite !sum_cons, (IH _ Hi). lia.
Qed.

End Append.

Lemma consistent_count_sum (bins : list BinContainer.t) :
  Forall consistent bins ->
  sum (BinContainer.count <$> bins) = sum (placed_items bins).
Proof.
  unfold placed_items. induction 1 as [|b bins Hb _ IH]; csimpl; [done|].
  rewrite sum_cons, sum_app, IH. unfold consistent in Hb. lia.
Qed.

(** ** order_sequentially *)

Lemma seq_body_placed (st st' : seq_state) (item : Z) :
  seq_body st item = Ok st' ->
  placed_items (seq_bins st') ≡ₚ placed_items (seq_bins st) ++ [item]
  /\ (Forall consistent (seq_bins st) -> Forall consistent (seq_bins st'))
  /\ length (seq_bins st') = length (seq_bins st).
Proof.
  unfold seq_body.
  destruct (getitem_cases (seq_bins st) (seq_cidx st)) as [(b & Hb & ->)|[_ ->]];
    simpl; [|done].
  destruct (can_add_to_bin b item).
  - intros [= <-]. simpl. split; [|split].
    + rewrite (placed_items_append _ _ _ _ Hb). by rewrite Permutation_cons_append.
    + apply consistent_append.
    + apply length_alter.
  - destruct (getitem_cases (seq_bins st) (S (seq_cidx st)))
      as [(b' & Hb' & ->)|[_ ->]]; simpl; [|done].
    intros [= <-]. simpl. split; [|split].
    + rewrite (placed_items_append _ _ _ _ Hb'). by rewrite Permutation_cons_append.
    + apply consistent_append.
    + apply length_alter.
Qed.

Lemma seq_loop_placed (items : list Z) (st st' : seq_state) :
  for_each seq_body items st = Ok st' ->
  placed_items (seq_bins st') ≡ₚ placed_items (seq_bins st) ++ items
  /\ (Forall consistent (seq_bins st) -> Forall consistent (seq_bins st'))
  /\ length (seq_bins st') = length (seq_bins st).
Proof.
  revert st. induction items as [|item items IH]; intros st; simpl.
  - intros [= <-]. by rewrite app_nil_r.
  - destruct (seq_body st item) as [st1| |] eqn:E; simpl; [|done|done].
    intros Hrun. destruct (seq_body_placed _ _ _ E) as (H1 & H2 & H3).
    destruct (IH _ Hrun) as (H4 & H5 & H6).
    split; [|split].
    + rewrite H4, H1, <- app_assoc. done.
    + auto.
    + congruence.
Qed.

(** ** evenly_distribute *)

Lemma omap_ext_in {A B} (f g : A -> option B) (l : list A) :
  (forall x, x ∈ l -> f x = g x) -> omap f l = omap g l.
Proof.
  induction l as [|x l IH]; intros Hfg; [done|]. csimpl.
  rewrite (Hfg x) by apply list_elem_of_here.
  rewrite IH; [done|]. intros y Hy. apply Hfg. by apply list_elem_of_further.
Qed.

Lemma py_mod_Ok (a b t : nat) : py_mod a b = Ok t <-> 0 < b /\ t = a mod b.
Proof.
  unfold py_mod. destruct b as [|b].
  - split; [done|lia].
  - split; [intros [= <-]; split; [lia|done]|intros [_ ->]; done].
Qed.

Section RoundRobin.
Variable bin_count : nat.

Lemma rr_body_inv (st st' : rr_state) (item : Z) :
  rr_body bin_count st item = Ok st' ->
  0 < bin_count
  /\ offered_to (rr_nidx st mod bin_count) st item st'
  /\ rr_nidx st' = S (rr_nidx st).
Proof.
  unfold rr_body, offered_to.
  destruct (py_mod (rr_nidx st) bin_count) as [target| |] eqn:Hm; simpl;
    [|done|done].
  apply py_mod_Ok in Hm as [Hpos ->].
  destruct (getitem_cases (rr_bins st) (rr_nidx st mod bin_count))
    as [(b & Hb & ->)|[_ ->]]; simpl; [|done].
  destruct (can_add_to_bin b item) eqn:Hfit; intros [= <-]; simpl.
  - split; [lia|]. split; [|done]. split; [done|].
    exists b. by rewrite Hfit.
  - split; [lia|]. split; [|done]. split; [done|].
    exists b. by rewrite Hfit.
Qed.

Lemma rr_body_length (st st' : rr_state) (item : Z) :
  rr_body bin_count st item = Ok st' ->
  length (rr_bins st') = length (rr_bins st).
Proof.
  intros H. apply rr_body_inv in H as (_ & [_ (b & Hb & Hcase)] & _).
  destruct (can_add_to_bin b item); destruct Hcase as [-> _]; [|done].
  apply length_alter.
Qed.

(** With at least one bin, the rotation always finds its bin: offering an
    item cannot raise. *)
Lemma rr_body_Ok (st : rr_state) (item : Z) :
  0 < bin_count -> length (rr_bins st) = bin_count ->
  exists st', rr_body bin_count st item = Ok st'.
Proof.
  intros Hpos Hlen. unfold rr_body.
  rewrite (proj2 (py_mod_Ok _ _ _) (conj Hpos eq_refl)). simpl.
  destruct (getitem_cases (rr_bins st) (rr_nidx st mod bin_count))
    as [(b & Hb & ->)|[Hout _]]; simpl.
  - destruct (can_add_to_bin b item); eauto.
  - pose proof (Nat.mod_upper_bound (rr_nidx st) bin_count). lia.
Qed.

Lemma rr_loop_Ok (items : list Z) (st : rr_state) :
  0 < bin_count -> length (rr_bins st) = bin_count ->
  exists st', for_each (rr_body bin_count) items st = Ok st'.
Proof.
  intros Hpos. revert st. induction items as [|item items IH]; intros st Hlen.
  - simpl. eauto.
  - simpl. destruct (rr_body_Ok st item Hpos Hlen) as [st1 H1].
    rewrite H1. simpl. apply IH.
    rewrite (rr_body_length _ _ _ H1). done.
Qed.

(** Every item ends up either in a bin or in a notice. *)
Lemma rr_body_balance (st st' : rr_state) (item : Z) :
  rr_body bin_count st item = Ok st' ->
  placed_items (rr_bins st') ++ dropped_items st'
  ≡ₚ (placed_items (rr_bins st) ++ dropped_items st) ++ [item].
Proof.
  intros H. apply rr_body_inv in H as (_ & [_ (b & Hb & Hcase)] & _).
  unfold dropped_items.
  destruct (can_add_to_bin b item); destruct Hcase as [-> ->].
  - rewrite (placed_items_append _ _ _ _ Hb).
    rewrite <- Permutation_cons_append. done.
  - rewrite fmap_app. simpl. by rewrite app_assoc.
Qed.

Lemma rr_loop_balance (items : list Z) (st st' : rr_state) :
  for_each (rr_body bin_count) items st = Ok st' ->
  placed_items (rr_bins st') ++ dropped_items st'
  ≡ₚ (placed_items (rr_bins st) ++ dropped_items st) ++ items.
Proof.
  revert st. induction items as [|item items IH]; intros st; simpl.
  - intros [= <-]. by rewrite app_nil_r.
  - destruct (rr_body bin_count st item) as [st1| |] eqn:E; simpl; [|done|done].
    intros Hrun. rewrite (IH _ Hrun), (rr_body_balance _ _ _ E).
    by rewrite <- app_assoc.
Qed.

(** An append made by this policy leaves the bin within its capacity. *)
Lemma rr_body_within_capacity (st st' : rr_state) (item : Z) :
  rr_body bin_count st item = Ok st' ->
  Forall within_capacity (rr_bins st) ->
  Forall within_capacity (rr_bins st').
Proof.
  intros H Hall. apply rr_body_inv in H as (_ & [_ (b & Hb & Hcase)] & _).
  destruct (can_add_to_bin b item) eqn:Hfit; destruct Hcase as [-> _];
    [|done].
  apply Forall_lookup. intros i b' Hi.
  rewrite list_lookup_alter in Hi. case_decide as Hd.
  - subst i. rewrite Hb in Hi. simpl in Hi.
    injection Hi as <-. intros _. unfold can_add_to_bin in Hfit. simpl.
    by apply Z.leb_le.
  - rewrite Forall_lookup in Hall. by eapply Hall.
Qed.

Lemma rr_loop_within_capacity (items : list Z) (st st' : rr_state) :
  for_each (rr_body bin_count) items st = Ok st' ->
  Forall within_capacity (rr_bins st) ->
  Forall within_capacity (rr_bins st').
Proof.
  revert st. induction items as [|item items IH]; intros st; simpl.
  - by intros [= <-].
  - destruct (rr_body bin_count st item) as [st1| |] eqn:E; simpl; [|done|done].
    intros Hrun Hall. apply (IH _ Hrun).
    by apply (rr_body_within_capacity _ _ _ E).
Qed.

Variable bin_list : list BinContainer.t.

Lemma rr_before_snoc_lt (order : list Z) (item : Z) (k : nat) :
  k <= length order ->
  rr_before bin_count bin_list (order ++ [item]) k
  = rr_before bin_count bin_list order k.
Proof. intros Hk. unfold rr_before. by rewrite take_app_le. Qed.

Lemma fits_at_snoc_lt (order : list Z) (item : Z) (k : nat) :
  k < length order ->
  fits_at bin_count bin_list (order ++ [item]) k
  = fits_at bin_count bin_list order k.
Proof.
  intros Hk. unfold fits_at.
  rewrite rr_before_snoc_lt by lia. by rewrite lookup_app_l.
Qed.

(** The counter equals the number of items offered, and the notices name
    exactly the items that did not fit when offered. *)
Lemma rr_loop_trace (order : list Z) (fin : rr_state) :
  for_each (rr_body bin_count) order (rr_init bin_list) = Ok fin ->
  rr_nidx fin = length order
  /\ dropped_items fin = did_not_fit bin_count bin_list order.
Proof.
  revert fin. induction order as [|item order IH] using rev_ind; intros fin.
  - simpl. by intros [= <-].
  - rewrite for_each_snoc.
    destruct (for_each (rr_body bin_count) order (rr_init bin_list))
      as [st| |] eqn:E; simpl; [|done|done].
    intros Hbody. destruct (IH st eq_refl) as [Hn Hd].
    pose proof (rr_body_inv _ _ _ Hbody) as (Hpos & [_ (b & Hb & Hcase)] & Hn').
    split; [rewrite length_app; simpl; lia|].
    unfold did_not_fit. rewrite length_app. simpl.
    rewrite Nat.add_1_r, seq_S, omap_app. simpl.
    rewrite (omap_ext_in _
      (fun k => if fits_at bin_count bin_list order k then None else order !! k)).
    2:{ intros k Hk. apply elem_of_seq in Hk.
        rewrite fits_at_snoc_lt by lia. by rewrite lookup_app_l by lia. }
    fold (did_not_fit bin_count bin_list order). rewrite <- Hd.
    assert (Hfit : fits_at bin_count bin_list (order ++ [item]) (length order)
                   = can_add_to_bin b item).
    { unfold fits_at, rr_before. rewrite take_app_length, E.
      rewrite list_lookup_middle by done.
      rewrite (proj2 (py_mod_Ok _ _ _) (conj Hpos eq_refl)).
      rewrite <- Hn. by rewrite Hb. }
    rewrite Hfit. rewrite list_lookup_middle by done.
    unfold dropped_items.
    destruct (can_add_to_bin b item); destruct Hcase as [_ ->]; simpl.
    + by rewrite app_nil_r.
    + by rewrite fmap_app.
Qed.

(** The state before the [k]-th item, and the offer made to it. *)
Lemma rr_loop_offer (order : list Z) (fin : rr_state) (k : nat) (item : Z) :
  for_each (rr_body bin_count) order (rr_init bin_list) = Ok fin ->
  order !! k = Some item ->
  exists st st',
    rr_before bin_count bin_list order k = Ok st
    /\ rr_nidx st = k
    /\ rr_body bin_count st item = Ok st'
    /\ offered_to (k mod bin_count) st item st'
    /\ rr_nidx st' = S k.
Proof.
  intros Hrun Hk.
  pose proof (take_drop_middle _ _ _ Hk) as Hsplit.
  rewrite <- Hsplit in Hrun.
  apply for_each_prefix_Ok in Hrun as (st & Hpre & Hrest).
  simpl in Hrest.
  destruct (rr_body bin_count st item) as [st'| |] eqn:Hbody; simpl in Hrest;
    [|done|done].
  destruct (rr_loop_trace _ _ Hpre) as [Hn _].
  rewrite length_take_le in Hn by (apply lookup_lt_Some in Hk; lia).
  pose proof (rr_body_inv _ _ _ Hbody) as (_ & Hoff & Hn').
  exists st, st'. unfold rr_before. rewrite Hn in *. done.
Qed.

End RoundRobin.

(** ** The policies as a whole *)

Lemma order_sequentially_unfold (values bin_sizes : list Z) (flag : bool) bins :
  order_sequentially values bin_sizes flag = Ok bins ->
  exists bin_count bin_list fin,
    compute_bin_count values bin_sizes = Ok bin_count
    /\ allocate_bins bin_sizes bin_count = Ok bin_list
    /\ for_each seq_body (sorted values flag)
         {| seq_bins := bin_list; seq_cidx := 0 |} = Ok fin
    /\ bins = seq_bins fin.
Proof.
  unfold order_sequentially.
  destruct (compute_bin_count values bin_sizes) as [n| |] eqn:Hn; simpl;
    [|done|done].
  destruct (allocate_bins bin_sizes n) as [bin_list| |] eqn:Hb; simpl;
    [|done|done].
  destruct (split_values_by_size_concat values flag) as (groups & -> & Hcat).
  simpl. rewrite for_each_nested, Hcat.
  destruct (for_each seq_body _ _) as [fin| |] eqn:E; simpl; [|done|done].
  intros [= <-]. by exists n, bin_list, fin.
Qed.

Lemma evenly_distribute_run_unfold (values bin_sizes : list Z) (flag : bool) :
  forall bin_count bin_list groups,
    compute_bin_count values bin_sizes = Ok bin_count ->
    allocate_bins bin_sizes bin_count = Ok bin_list ->
    split_values_by_size values flag = Ok groups ->
    evenly_distribute_run values bin_sizes flag
    = for_each (rr_body bin_count) (concat groups) (rr_init bin_list).
Proof.
  intros n bin_list groups Hn Hb Hg. unfold evenly_distribute_run.
  rewrite Hn. simpl. rewrite Hb. simpl. rewrite Hg. simpl.
  apply for_each_nested.
Qed.

Lemma evenly_distribute_run_inv (values bin_sizes : list Z) (flag : bool) fin :
  evenly_distribute_run values bin_sizes flag = Ok fin ->
  exists bin_count bin_list groups,
    compute_bin_count values bin_sizes = Ok bin_count
    /\ allocate_bins bin_sizes bin_count = Ok bin_list
    /\ split_values_by_size values flag = Ok groups
    /\ concat groups = sorted values flag
    /\ for_each (rr_body bin_count) (concat groups) (rr_init bin_list) = Ok fin.
Proof.
  intros Hrun.
  destruct (compute_bin_count values bin_sizes) as [n| |] eqn:Hn;
    [|unfold evenly_distribute_run in Hrun; rewrite Hn in Hrun; done..].
  destruct (allocate_bins bin_sizes n) as [bin_list| |] eqn:Hb;
    [|unfold evenly_distribute_run in Hrun; rewrite Hn in Hrun; simpl in Hrun;
      rewrite Hb in Hrun; done..].
  destruct (split_values_by_size_concat values flag) as (groups & Hg & Hcat).
  rewrite (evenly_distribute_run_unfold _ _ _ _ _ _ Hn Hb Hg) in Hrun.
  by exists n, bin_list, groups.
Qed.

(** The round-robin policy keeps every bin it has appended to within its
    capacity: each of its appends is guarded by [can_add_to_bin]. *)
Lemma evenly_distribute_within_capacity (values bin_sizes : list Z)
    (flag : bool) bins :
  evenly_distribute values bin_sizes flag = Ok bins ->
  Forall within_capacity bins.
Proof.
  unfold evenly_distribute.
  destruct (evenly_distribute_run values bin_sizes flag) as [fin| |] eqn:Hrun;
    simpl; [|done|done].
  intros [= <-].
  apply evenly_distribute_run_inv in Hrun
    as (n & bin_list & groups & _ & Hb & _ & _ & Hloop).
  eapply rr_loop_within_capacity; [exact Hloop|]. simpl.
  apply allocate_from_fresh in Hb as [_ Hfresh].
  eapply List.Forall_impl; [|exact Hfresh].
  intros b [Hitems _] Hne. done.
Qed.

(** A positive demand needs at least one bin. *)
Lemma compute_bin_count_pos (values bin_sizes : list Z) (n : nat) :
  compute_bin_count values bin_sizes = Ok n ->
  (0 < sum values)%Z -> 0 < n.
Proof.
  intros Hn Hpos. pose proof (compute_bin_count_post values bin_sizes) as H.
  rewrite Hn in H. destruct H as (_ & Hcover & _).
  destruct n; [|lia]. rewrite take_0, sum_nil in Hcover. lia.
Qed.

(** The round-robin policy returns whenever the planner does and the
    planned number of bins is not zero for a non-empty collection. *)
Lemma evenly_distribute_run_Ok (values bin_sizes : list Z) (flag : bool) n :
  compute_bin_count values bin_sizes = Ok n ->
  values = [] \/ (0 < sum values)%Z ->
  exists fin, evenly_distribute_run values bin_sizes flag = Ok fin.
Proof.
  intros Hn Hdom.
  pose proof (compute_bin_count_post values bin_sizes) as Hpost.
  rewrite Hn in Hpost. destruct Hpost as (Hle & _ & _).
  destruct (allocate_bins_Ok bin_sizes n Hle) as (bin_list & Hb & Hlen & _).
  destruct (split_values_by_size_concat values flag) as (groups & Hg & Hcat).
  rewrite (evenly_distribute_run_unfold _ _ _ _ _ _ Hn Hb Hg).
  destruct Hdom as [->|Hpos].
  - rewrite Hcat. simpl. eauto.
  - apply rr_loop_Ok; [|done]. by eapply compute_bin_count_pos.
Qed.

(** Bins and notices only grow: what a bin holds, and the notices written,
    stay in place as a prefix of what the loop ends with. *)
Lemma rr_body_grows (n : nat) (st st' : rr_state) (item : Z) :
  rr_body n st item = Ok st' ->
  rr_notices st `prefix_of` rr_notices st'
  /\ forall j b, rr_bins st !! j = Some b ->
       exists b', rr_bins st' !! j = Some b'
                  /\ BinContainer.items b `prefix_of` BinContainer.items b'.
Proof.
  intros Hbody. apply rr_body_inv in Hbody as (_ & [_ (b0 & Hb0 & Hcase)] & _).
  destruct (can_add_to_bin b0 item); destruct Hcase as [-> ->].
  - split; [done|]. intros j b Hb. rewrite list_lookup_alter.
    destruct (decide (rr_nidx st mod n = j)) as [Heq|Hne].
    + rewrite Heq in Hb0. rewrite Heq, Hb. simpl.
      eexists. split; [done|]. simpl. by apply prefix_app_r.
    + exists b. done.
  - split; [by apply prefix_app_r|]. intros j b Hb. exists b. done.
Qed.

Lemma rr_loop_grows (n : nat) (items : list Z) (st fin : rr_state) :
  for_each (rr_body n) items st = Ok fin ->
  rr_notices st `prefix_of` rr_notices fin
  /\ forall j b, rr_bins st !! j = Some b ->
       exists b', rr_bins fin !! j = Some b'
                  /\ BinContainer.items b `prefix_of` BinContainer.items b'.
Proof.
  revert st. induction items as [|item items IH]; intros st; simpl.
  - intros [= <-]. split; [done|]. intros j b Hb. by exists b.
  - destruct (rr_body n st item) as [st1| |] eqn:E; simpl; [|done|done].
    intros Hrun. destruct (rr_body_grows _ _ _ _ E) as [Hn1 Hb1].
    destruct (IH _ Hrun) as [Hn2 Hb2]. split; [by etrans|].
    intros j b Hb. destruct (Hb1 j b Hb) as (b1 & Hj1 & Hp1).
    destruct (Hb2 j b1 Hj1) as (b2 & Hj2 & Hp2).
    exists b2. split; [done|]. by etrans.
Qed.

(** The offer made to the [k]-th item, and where the returned state shows
    its outcome. *)
Lemma rr_loop_offer_recorded (n : nat) (bin_list : list BinContainer.t)
    (order : list Z) (fin : rr_state) (k : nat) (item : Z) :
  for_each (rr_body n) order (rr_init bin_list) = Ok fin ->
  order !! k = Some item ->
  exists st st',
    rr_before n bin_list order k = Ok st
    /\ rr_nidx st = k
    /\ rr_body n st item = Ok st'
    /\ rr_before n bin_list order (S k) = Ok st'
    /\ offered_to (k mod n) st item st'
    /\ rr_nidx st' = S k
    /\ recorded_in (k mod n) st item fin.
Proof.
  intros Hrun Hk.
  destruct (rr_loop_offer n bin_list order fin k item Hrun Hk)
    as (st & st' & Hbefore & Hn & Hbody & Hoff & Hn').
  exists st, st'. split; [done|]. split; [done|]. split; [done|].
  assert (Hnext : rr_before n bin_list order (S k) = Ok st').
  { unfold rr_before in *. rewrite (take_S_r _ _ _ Hk), for_each_snoc, Hbefore.
    done. }
  split; [done|]. split; [done|]. split; [done|].
  assert (Hrest : for_each (rr_body n) (drop (S k) order) st' = Ok fin).
  { rewrite <- (take_drop (S k) order) in Hrun.
    apply for_each_prefix_Ok in Hrun as (mid & Hmid & Hrest).
    unfold rr_before in Hnext. congruence. }
  destruct (rr_loop_grows _ _ _ _ Hrest) as [Hnot Hbins].
  destruct Hoff as [_ (b & Hb & Hcase)].
  unfold recorded_in.
  destruct (can_add_to_bin b item) eqn:Hfit; destruct Hcase as [Hbins' Hnot'].
  - assert (Hput : rr_bins st' !! (k mod n) = Some (BinContainer.append b item)).
    { rewrite Hbins', list_lookup_alter_eq, Hb. done. }
    destruct (Hbins _ _ Hput) as (bfin & Hfin & Hpre).
    exists b, bfin. rewrite Hfit. done.
  - assert (Hsame : rr_bins st' !! (k mod n) = Some b) by (by rewrite Hbins').
    destruct (Hbins _ _ Hsame) as (bfin & Hfin & _).
    exists b, bfin. rewrite Hfit. rewrite <- Hnot'. done.
Qed.

(** ** The specification's claims *)

(** C1. When the capacities add up to at least the total item size,
    [compute_bin_count] returns the smallest [n] such that the first [n]
    capacities add up to at least the total item size.  For an empty
    collection it returns [0], and does so with a budget of zero loop
    iterations: the loop body is not entered. *)
Theorem compute_bin_count_smallest_prefix (bin_items bin_sizes : list Z) :
  bin_items = [] \/ (sum bin_items <= sum bin_sizes)%Z ->
  exists n,
    compute_bin_count bin_items bin_sizes = Ok n
    /\ n <= length bin_sizes
    /\ (sum bin_items <= sum (take n bin_sizes))%Z
    /\ (forall m, (sum bin_items <= sum (take m bin_sizes))%Z -> n <= m)
    /\ (bin_items = [] ->
        n = 0
        /\ compute_bin_count_loop 0 (sum bin_items) bin_sizes 0%Z 0 = Ok 0).
Proof.
  intros Hdom. pose proof (compute_bin_count_post bin_items bin_sizes) as H.
  destruct (compute_bin_count bin_items bin_sizes) as [n|[]|]; simpl in H.
  - destruct H as (Hlen & Hcover & Hbelow).
    assert (Hmin : forall m, (sum bin_items <= sum (take m bin_sizes))%Z -> n <= m).
    { intros m Hm. destruct (decide (n <= m)) as [|Hlt]; [done|].
      specialize (Hbelow m ltac:(lia)). lia. }
    exists n. repeat split; try done.
    + subst. specialize (Hmin 0). rewrite take_0, !sum_nil in Hmin. lia.
    + by subst.
  - exfalso. destruct Hdom as [->|Hsum].
    + specialize (H 0). rewrite take_0, !sum_nil in H. lia.
    + specialize (H (length bin_sizes)). rewrite firstn_all in H. lia.
  - done.
  - done.
Qed.

Lemma compute_bin_count_smallest_prefix_witness :
  exists n,
    compute_bin_count [57; 76]%Z [2; 40; 40; 40; 40]%Z = Ok n
    /\ n <= 5
    /\ (133 <= sum (take n [2; 40; 40; 40; 40]))%Z
    /\ (forall m, (133 <= sum (take m [2; 40; 40; 40; 40]))%Z -> n <= m)
    /\ ([57; 76]%Z = [] ->
        n = 0
        /\ compute_bin_count_loop 0 133 [2; 40; 40; 40; 40]%Z 0%Z 0 = Ok 0).
Proof.
  apply (compute_bin_count_smallest_prefix [57; 76]%Z [2; 40; 40; 40; 40]%Z).
  right. vm_compute. discriminate.
Defined.

(** C3. When [order_sequentially] returns normally, the items held by the
    returned bins are the input items, each exactly once; so the sizes
    placed, and the running sums of the bins, add up to the total input
    size. *)
Theorem order_sequentially_places_every_item (values bin_sizes : list Z)
    (large_items_at_top : bool) (bins : list BinContainer.t) :
  order_sequentially values bin_sizes large_items_at_top = Ok bins ->
  placed_items bins ≡ₚ values
  /\ sum (placed_items bins) = sum values
  /\ sum (BinContainer.count <$> bins) = sum values.
Proof.
  intros Hrun.
  apply order_sequentially_unfold in Hrun as (n & bin_list & fin & _ & Hb & Hloop & ->).
  apply allocate_from_fresh in Hb as [_ Hfresh].
  apply placed_items_fresh in Hfresh as [Hnone Hcons].
  apply seq_loop_placed in Hloop as (Hperm & Hkeep & _). simpl in *.
  rewrite Hnone in Hperm. simpl in Hperm.
  rewrite sorted_Permutation in Hperm.
  split; [done|]. split.
  - by apply sum_Permutation.
  - rewrite consistent_count_sum by auto. by apply sum_Permutation.
Qed.

Lemma order_sequentially_places_every_item_witness :
  let bins := [BinContainer.mk 0 3 3 [1; 2]; BinContainer.mk 1 4 3 [3]]%Z in
  order_sequentially [3; 1; 2]%Z [3; 4; 9]%Z false = Ok bins
  /\ placed_items bins ≡ₚ [3; 1; 2]%Z
  /\ sum (placed_items bins) = 6%Z
  /\ sum (BinContainer.count <$> bins) = 6%Z.
Proof.
  intros bins. split; [reflexivity|].
  apply (order_sequentially_places_every_item [3; 1; 2]%Z [3; 4; 9]%Z false bins).
  reflexivity.
Defined.

(** C4, amended.  Whenever [compute_bin_count] succeeds and the collection
    is empty or has a positive total size, [evenly_distribute] returns
    normally: an item that does not fit is reported in a notice and left
    out, never raised.  The placed and the dropped items together are the
    input items, so their sizes add up to the total input size, and the
    dropped items are exactly the items that did not fit the bin the
    rotation assigned to them when they were offered. *)
Theorem evenly_distribute_places_or_drops (values bin_sizes : list Z)
    (large_items_at_top : bool) (bin_count : nat) :
  compute_bin_count values bin_sizes = Ok bin_count ->
  values = [] \/ (0 < sum values)%Z ->
  exists fin bin_list groups,
    evenly_distribute_run values bin_sizes large_items_at_top = Ok fin
    /\ evenly_distribute values bin_sizes large_items_at_top = Ok (rr_bins fin)
    /\ allocate_bins bin_sizes bin_count = Ok bin_list
    /\ split_values_by_size values large_items_at_top = Ok groups
    /\ placed_items (rr_bins fin) ++ dropped_items fin ≡ₚ values
    /\ (sum (placed_items (rr_bins fin)) + sum (dropped_items fin))%Z = sum values
    /\ dropped_items fin = did_not_fit bin_count bin_list (concat groups).
Proof.
  intros Hn Hdom.
  destruct (evenly_distribute_run_Ok values bin_sizes large_items_at_top _ Hn Hdom)
    as [fin Hrun].
  pose proof Hrun as Hinv.
  apply evenly_distribute_run_inv in Hinv
    as (n & bin_list & groups & Hn' & Hb & Hg & Hcat & Hloop).
  assert (n = bin_count) as -> by congruence.
  exists fin, bin_list, groups.
  assert (Hperm : placed_items (rr_bins fin) ++ dropped_items fin ≡ₚ values).
  { rewrite (rr_loop_balance _ _ _ _ Hloop). simpl.
    apply allocate_from_fresh in Hb as [_ Hfresh].
    apply placed_items_fresh in Hfresh as [-> _]. unfold dropped_items. simpl.
    rewrite Hcat. apply sorted_Permutation. }
  repeat split; try done.
  - unfold evenly_distribute. by rewrite Hrun.
  - rewrite <- sum_app. by apply sum_Permutation.
  - by destruct (rr_loop_trace _ _ _ _ Hloop).
Qed.

Lemma evenly_distribute_places_or_drops_witness :
  exists fin bin_list groups,
    evenly_distribute_run [0; 5; 2; 1]%Z [2; 4; 9]%Z false = Ok fin
    /\ evenly_distribute [0; 5; 2; 1]%Z [2; 4; 9]%Z false = Ok (rr_bins fin)
    /\ allocate_bins [2; 4; 9]%Z 3 = Ok bin_list
    /\ split_values_by_size [0; 5; 2; 1]%Z false = Ok groups
    /\ placed_items (rr_bins fin) ++ dropped_items fin ≡ₚ [0; 5; 2; 1]%Z
    /\ (sum (placed_items (rr_bins fin)) + sum (dropped_items fin))%Z
       = sum [0; 5; 2; 1]%Z
    /\ dropped_items fin = did_not_fit 3 bin_list (concat groups).
Proof.
  apply (evenly_distribute_places_or_drops [0; 5; 2; 1]%Z [2; 4; 9]%Z false 3).
  - reflexivity.
  - right. reflexivity.
Defined.

(** C4 as stated fails: for the collection [[0]] the planner succeeds, with
    a count of zero, and the first item's turn divides by that zero. *)
Lemma evenly_distribute_zero_demand_counterexample :
  compute_bin_count [0]%Z [3]%Z = Ok 0
  /\ evenly_distribute_run [0]%Z [3]%Z false = Raise ZeroDivisionError
  /\ evenly_distribute [0]%Z [3]%Z false = Raise ZeroDivisionError.
Proof. repeat split. Qed.

(** C5. In a run of [evenly_distribute] that returns normally, the [k]-th
    item of the grouped order is offered to bin [k mod bin_count]: when its
    turn comes the counter [nidx] equals [k] whatever happened to the
    earlier items, the item is appended to that bin or skipped with a
    notice, and the counter becomes [k + 1] in both cases.  The returned
    state is the state after the last turn, and it shows every offer: an
    item that fitted is held by bin [k mod bin_count], and an item that did
    not is named in a notice together with that bin. *)
Theorem evenly_distribute_round_robin (values bin_sizes : list Z)
    (large_items_at_top : bool) (fin : rr_state) :
  evenly_distribute_run values bin_sizes large_items_at_top = Ok fin ->
  exists bin_count bin_list groups,
    compute_bin_count values bin_sizes = Ok bin_count
    /\ allocate_bins bin_sizes bin_count = Ok bin_list
    /\ split_values_by_size values large_items_at_top = Ok groups
    /\ evenly_distribute values bin_sizes large_items_at_top = Ok (rr_bins fin)
    /\ rr_before bin_count bin_list (concat groups) (length (concat groups))
       = Ok fin
    /\ rr_nidx fin = length values
    /\ forall k item,
         concat groups !! k = Some item ->
         exists st st',
           rr_before bin_count bin_list (concat groups) k = Ok st
           /\ rr_nidx st = k
           /\ rr_body bin_count st item = Ok st'
           /\ rr_before bin_count bin_list (concat groups) (S k) = Ok st'
           /\ offered_to (k mod bin_count) st item st'
           /\ rr_nidx st' = S k
           /\ recorded_in (k mod bin_count) st item fin.
Proof.
  intros Hrun. pose proof Hrun as Hinv.
  apply evenly_distribute_run_inv in Hinv
    as (n & bin_list & groups & Hn & Hb & Hg & Hcat & Hloop).
  exists n, bin_list, groups.
  split; [done|]. split; [done|]. split; [done|]. split.
  { unfold evenly_distribute. by rewrite Hrun. }
  split.
  { unfold rr_before. by rewrite firstn_all. }
  split.
  { destruct (rr_loop_trace _ _ _ _ Hloop) as [-> _].
    by rewrite Hcat, sorted_length. }
  intros k item Hk. by eapply rr_loop_offer_recorded.
Qed.

Lemma evenly_distribute_round_robin_witness :
  exists fin bin_count bin_list groups,
    evenly_distribute_run [2; 1; 2; 1]%Z [2; 4]%Z false = Ok fin
    /\ compute_bin_count [2; 1; 2; 1]%Z [2; 4]%Z = Ok bin_count
    /\ allocate_bins [2; 4]%Z bin_count = Ok bin_list
    /\ split_values_by_size [2; 1; 2; 1]%Z false = Ok groups
    /\ evenly_distribute [2; 1; 2; 1]%Z [2; 4]%Z false = Ok (rr_bins fin)
    /\ rr_before bin_count bin_list (concat groups) (length (concat groups))
       = Ok fin
    /\ rr_nidx fin = 4
    /\ forall k item,
         concat groups !! k = Some item ->
         exists st st',
           rr_before bin_count bin_list (concat groups) k = Ok st
           /\ rr_nidx st = k
           /\ rr_body bin_count st item = Ok st'
           /\ rr_before bin_count bin_list (concat groups) (S k) = Ok st'
           /\ offered_to (k mod bin_count) st item st'
           /\ rr_nidx st' = S k
           /\ recorded_in (k mod bin_count) st item fin.
Proof.
  eexists.
  destruct (evenly_distribute_round_robin [2; 1; 2; 1]%Z [2; 4]%Z false _ eq_refl)
    as (n & bin_list & groups & H).
  exists n, bin_list, groups. split; [reflexivity|exact H].
Defined.

(** C6. With capacities that are not negative, a total item size above the
    sum of all capacities makes [compute_bin_count] walk past the end of the
    capacity list: it raises [IndexError], and so does each policy, which
    calls it first. *)
Theorem insufficient_capacity_raises_IndexError (values bin_sizes : list Z)
    (large_items_at_top : bool) :
  Forall (fun c => 0 <= c)%Z bin_sizes ->
  (sum bin_sizes < sum values)%Z ->
  compute_bin_count values bin_sizes = Raise IndexError
  /\ order_sequentially values bin_sizes large_items_at_top = Raise IndexError
  /\ evenly_distribute values bin_sizes large_items_at_top = Raise IndexError.
Proof.
  intros Hcaps Hlt.
  assert (Hc : compute_bin_count values bin_sizes = Raise IndexError).
  { pose proof (compute_bin_count_post values bin_sizes) as H.
    destruct (compute_bin_count values bin_sizes) as [n|[]|]; simpl in H;
      [|done|done|done].
    destruct H as (_ & Hcover & _).
    pose proof (sum_take_le bin_sizes n Hcaps). lia. }
  split; [done|].
  unfold order_sequentially, evenly_distribute, evenly_distribute_run.
  by rewrite Hc.
Qed.

Lemma insufficient_capacity_raises_IndexError_witness :
  compute_bin_count [3; 3; 3]%Z [4; 4]%Z = Raise IndexError
  /\ order_sequentially [3; 3; 3]%Z [4; 4]%Z true = Raise IndexError
  /\ evenly_distribute [3; 3; 3]%Z [4; 4]%Z true = Raise IndexError.
Proof.
  apply (insufficient_capacity_raises_IndexError [3; 3; 3]%Z [4; 4]%Z true).
  - repeat constructor; vm_compute; discriminate.
  - reflexivity.
Defined.

(** C7. [split_values_by_size] returns groups that are each non-empty and
    made of copies of one value, and the values of successive groups are
    strictly decreasing when the flag is set and strictly increasing
    otherwise.  For an empty collection the result has no group at all. *)
Theorem split_values_by_size_groups (values : list Z) (large_values_first : bool) :
  (exists groups vals,
     split_values_by_size values large_values_first = Ok groups
     /\ Forall2 group_of groups vals
     /\ StronglySorted (before large_values_first) vals)
  /\ split_values_by_size [] large_values_first = Ok [].
Proof.
  split; [|reflexivity].
  destruct values as [|x values].
  - exists [], []. repeat split; constructor.
  - destruct (split_values_by_size_nonempty large_values_first (x :: values))
      as (groups & vals & Hrun & Hgroups & Hvals & _); [done|].
    by exists groups, vals.
Qed.

(** C8. The groups returned by [split_values_by_size], concatenated in
    order, are the input collection sorted in the requested direction: the
    same items, each as many times as in the input, in sorted order. *)
Theorem split_values_by_size_concat_sorted (values : list Z)
    (large_values_first : bool) :
  exists groups,
    split_values_by_size values large_values_first = Ok groups
    /\ concat groups = sorted values large_values_first
    /\ concat groups ≡ₚ values
    /\ StronglySorted (not_after large_values_first) (concat groups).
Proof.
  destruct (split_values_by_size_concat values large_values_first)
    as (groups & Hrun & Hcat).
  exists groups. rewrite Hcat. repeat split; try done.
  - apply sorted_Permutation.
  - apply sorted_StronglySorted.
Qed.

(** C9. A count returned by [compute_bin_count] is at most the length of
    the capacity list, so building the bins from the first [bin_count]
    capacities succeeds: bin [j] gets index [j] and capacity [bin_sizes[j]]. *)
Theorem bin_count_within_capacity_list (values bin_sizes : list Z) (bin_count : nat) :
  compute_bin_count values bin_sizes = Ok bin_count ->
  0 <= bin_count <= length bin_sizes
  /\ exists bin_list,
       allocate_bins bin_sizes bin_count = Ok bin_list
       /\ length bin_list = bin_count
       /\ forall j, j < bin_count ->
            exists sz, bin_sizes !! j = Some sz
                       /\ bin_list !! j = Some (BinContainer.init j sz).
Proof.
  intros Hn. pose proof (compute_bin_count_post values bin_sizes) as H.
  rewrite Hn in H. destruct H as (Hle & _ & _).
  split; [lia|]. by apply allocate_bins_Ok.
Qed.

Lemma bin_count_within_capacity_list_witness :
  0 <= 2 <= 4
  /\ exists bin_list,
       allocate_bins [30; 30; 30; 30]%Z 2 = Ok bin_list
       /\ length bin_list = 2
       /\ forall j, j < 2 ->
            exists sz, [30; 30; 30; 30]%Z !! j = Some sz
                       /\ bin_list !! j = Some (BinContainer.init j sz).
Proof.
  apply (bin_count_within_capacity_list (replicate 45 1%Z) [30; 30; 30; 30]%Z 2).
  reflexivity.
Defined.

(** C10. For an empty collection both policies return an empty sequence of
    bins.  The planner asks for zero bins and there is no group to walk, so
    [evenly_distribute] ends in its initial loop state, with no item
    offered; the modulo, which would raise with zero bins, is not
    evaluated. *)
Theorem empty_collection_empty_bins (bin_sizes : list Z) (large_items_at_top : bool) :
  order_sequentially [] bin_sizes large_items_at_top = Ok []
  /\ evenly_distribute [] bin_sizes large_items_at_top = Ok []
  /\ compute_bin_count [] bin_sizes = Ok 0
  /\ split_values_by_size [] large_items_at_top = Ok []
  /\ evenly_distribute_run [] bin_sizes large_items_at_top = Ok (rr_init [])
  /\ forall st item, rr_body 0 st item = Raise ZeroDivisionError.
Proof. repeat split. Qed.

(** C2. The sequential policy appends to the bin it has just advanced to
    without testing it: on items [2; 3] and capacities [3; 2] the run
    returns normally with the second bin holding 3 units in a capacity of 2. *)
Theorem order_sequentially_overfills_advanced_bin :
  order_sequentially [2; 3]%Z [3; 2]%Z false
  = Ok [BinContainer.mk 0 3 2 [2]%Z; BinContainer.mk 1 2 3 [3]%Z]
  /\ can_add_to_bin (BinContainer.init 1 2) 3 = false
  /\ ~ Forall within_capacity
         [BinContainer.mk 0 3 2 [2]%Z; BinContainer.mk 1 2 3 [3]%Z].
Proof.
  split; [reflexivity|]. split; [reflexivity|].
  intros H. apply Forall_cons_1 in H as [_ H]. apply Forall_cons_1 in H as [H _].
  unfold within_capacity in H. simpl in H. specialize (H ltac:(done)). lia.
Qed.

(** * Further properties of the code *)

(** ** compute_bin_count *)

(** X1. The [while] loop of [compute_bin_count] stops after at most
    [len(bin_sizes) + 1] tests of its guard: with any budget above the
    length of the capacity list the loop gives the answer of
    [compute_bin_count], which is a count or an [IndexError], nothing else. *)
Theorem compute_bin_count_terminates (bin_items bin_sizes : list Z) (fuel : nat) :
  length bin_sizes < fuel ->
  compute_bin_count_loop fuel (sum bin_items) bin_sizes 0%Z 0
  = compute_bin_count bin_items bin_sizes
  /\ ((exists n, compute_bin_count bin_items bin_sizes = Ok n)
      \/ compute_bin_count bin_items bin_sizes = Raise IndexError).
Proof.
  intros Hfuel. split; [|apply compute_bin_count_total].
  eapply compute_bin_count_loop_fuel_mono; [reflexivity| |lia].
  fold (compute_bin_count bin_items bin_sizes).
  destruct (compute_bin_count_total bin_items bin_sizes) as [[n ->]| ->]; done.
Qed.

Lemma compute_bin_count_terminates_witness :
  compute_bin_count_loop 7 (sum [3; 3; 3]%Z) [4; 4]%Z 0%Z 0
  = compute_bin_count [3; 3; 3]%Z [4; 4]%Z
  /\ ((exists n, compute_bin_count [3; 3; 3]%Z [4; 4]%Z = Ok n)
      \/ compute_bin_count [3; 3; 3]%Z [4; 4]%Z = Raise IndexError).
Proof.
  apply (compute_bin_count_terminates [3; 3; 3]%Z [4; 4]%Z 7).
  simpl. repeat constructor.
Defined.

(** X2. [compute_bin_count] raises [IndexError] exactly when every prefix
    of the capacity list, the whole list included, sums to less than the
    total item size. *)
Theorem compute_bin_count_IndexError_iff (bin_items bin_sizes : list Z) :
  compute_bin_count bin_items bin_sizes = Raise IndexError
  <-> forall j, (sum (take j bin_sizes) < sum bin_items)%Z.
Proof.
  pose proof (compute_bin_count_post bin_items bin_sizes) as H.
  destruct (compute_bin_count bin_items bin_sizes) as [n|[]|]; simpl in H;
    try done.
  destruct H as (_ & Hcover & _). split; [done|].
  intros Hall. specialize (Hall n). lia.
Qed.

(** X3. [compute_bin_count] answers [0] exactly when the total item size is
    not positive, whatever the capacity list holds, the empty list included. *)
Theorem compute_bin_count_zero_iff (bin_items bin_sizes : list Z) :
  compute_bin_count bin_items bin_sizes = Ok 0 <-> (sum bin_items <= 0)%Z.
Proof.
  split.
  - intros Hn. pose proof (compute_bin_count_post bin_items bin_sizes) as H.
    rewrite Hn in H. destruct H as (_ & Hcover & _).
    by rewrite take_0, sum_nil in Hcover.
  - intros Hle. unfold compute_bin_count. simpl.
    destruct (Z.ltb_spec 0 (sum bin_items)); [lia|done].
Qed.

(** X4. The planned number of bins grows with the demand: over the same
    capacity list, a collection with a larger total size is never given
    fewer bins. *)
Theorem compute_bin_count_monotone (items1 items2 bin_sizes : list Z) (n1 n2 : nat) :
  compute_bin_count items1 bin_sizes = Ok n1 ->
  compute_bin_count items2 bin_sizes = Ok n2 ->
  (sum items1 <= sum items2)%Z ->
  n1 <= n2.
Proof.
  intros H1 H2 Hle.
  pose proof (compute_bin_count_post items1 bin_sizes) as P1.
  pose proof (compute_bin_count_post items2 bin_sizes) as P2.
  rewrite H1 in P1. rewrite H2 in P2.
  destruct P1 as (_ & _ & Hbelow). destruct P2 as (_ & Hcover & _).
  destruct (decide (n1 <= n2)) as [|Hgt]; [done|].
  specialize (Hbelow n2 ltac:(lia)). lia.
Qed.

Lemma compute_bin_count_monotone_witness : 2 <= 4.
Proof.
  apply (compute_bin_count_monotone (replicate 45 1%Z)
           (replicate 45 1 ++ replicate 36 2)%Z [30; 30; 30; 30]%Z 2 4).
  - reflexivity.
  - reflexivity.
  - vm_compute. discriminate.
Defined.

(** ** split_values_by_size *)

Lemma occurrences_app (v : Z) (l1 l2 : list Z) :
  occurrences v (l1 ++ l2) = occurrences v l1 + occurrences v l2.
Proof. unfold occurrences. by rewrite list.filter_app, length_app. Qed.

Lemma occurrences_Permutation (v : Z) (l1 l2 : list Z) :
  l1 ≡ₚ l2 -> occurrences v l1 = occurrences v l2.
Proof. intros H. unfold occurrences. by rewrite H. Qed.

Lemma occurrences_constant (v : Z) (g : list Z) :
  Forall (fun x => x = v) g -> occurrences v g = length g.
Proof.
  unfold occurrences. induction 1 as [|x g Hx _ IH]; [done|].
  rewrite filter_cons_True by done. simpl. by rewrite IH.
Qed.

Lemma occurrences_other (v w : Z) (g : list Z) :
  Forall (fun x => x = v) g -> w <> v -> occurrences w g = 0.
Proof.
  unfold occurrences. induction 1 as [|x g Hx _ IH]; intros Hne; [done|].
  rewrite filter_cons_False by congruence. by apply IH.
Qed.

Lemma group_of_replicate (g : list Z) (v : Z) :
  group_of g v -> g = replicate (length g) v.
Proof.
  intros [_ Hg]. induction Hg as [|x g Hx _ IH]; [done|].
  simpl. by rewrite <- IH, Hx.
Qed.

Lemma groups_elem_of (groups : list (list Z)) (vals : list Z) :
  Forall2 group_of groups vals ->
  forall x, x ∈ concat groups <-> x ∈ vals.
Proof.
  induction 1 as [|g v groups vals [Hne Hg] _ IH]; intros x; simpl; [done|].
  rewrite elem_of_app, elem_of_cons, IH.
  split; intros [Hx|Hx]; try (by right).
  - left. rewrite list.Forall_forall in Hg. by apply Hg.
  - left. subst x. destruct g as [|y g]; [done|].
    inversion Hg; subst. apply list_elem_of_here.
Qed.

Lemma before_StronglySorted_NoDup (flag : bool) (vals : list Z) :
  StronglySorted (before flag) vals -> NoDup vals.
Proof.
  induction 1 as [|v vals _ IH Hv]; constructor; [|done].
  intros Hin. rewrite list.Forall_forall in Hv. specialize (Hv v Hin).
  unfold before in Hv. destruct flag; lia.
Qed.

Lemma before_StronglySorted_not_after (flag : bool) (vals : list Z) :
  StronglySorted (before flag) vals -> StronglySorted (not_after flag) vals.
Proof.
  induction 1 as [|v vals _ IH Hv]; constructor; [done|].
  eapply List.Forall_impl; [|exact Hv].
  intros w. unfold before, not_after. destruct flag; lia.
Qed.

Lemma not_after_antisym (flag : bool) (x y : Z) :
  not_after flag x y -> not_after flag y x -> x = y.
Proof. unfold not_after. destruct flag; lia. Qed.

Lemma not_after_sorted_unique (flag : bool) (l1 l2 : list Z) :
  StronglySorted (not_after flag) l1 -> StronglySorted (not_after flag) l2 ->
  l1 ≡ₚ l2 -> l1 = l2.
Proof.
  apply StronglySorted_unique_strong.
  intros x y _ _. apply not_after_antisym.
Qed.

(** The groups are determined by their values and the collection. *)
Lemma groups_as_runs (groups : list (list Z)) (vals : list Z) :
  Forall2 group_of groups vals -> NoDup vals ->
  groups = (fun v => replicate (occurrences v (concat groups)) v) <$> vals.
Proof.
  induction 1 as [|g v groups vals Hg Hrest IH]; intros Hnd; [done|].
  apply list.NoDup_cons in Hnd as [Hv Hnd]. csimpl. f_equal.
  - rewrite occurrences_app, (occurrences_constant v g) by apply Hg.
    assert (occurrences v (concat groups) = 0) as ->.
    { unfold occurrences.
      destruct (filter (fun x => x = v) (concat groups)) as [|y l] eqn:E; [done|].
      assert (Hy : y ∈ filter (fun x => x = v) (concat groups))
        by (rewrite E; apply list_elem_of_here).
      apply list_elem_of_filter in Hy as [-> Hy].
      by apply (groups_elem_of _ _ Hrest) in Hy. }
    rewrite Nat.add_0_r. by apply group_of_replicate.
  - etrans; [by apply IH|]. apply list_fmap_ext. intros i w Hw.
    rewrite occurrences_app, (occurrences_other v w g); [done|apply Hg|].
    intros ->. apply Hv. by eapply list_elem_of_lookup_2.
Qed.

Lemma split_values_by_size_runs (values : list Z) (flag : bool) :
  split_values_by_size values flag = Ok (runs_by_value values flag).
Proof.
  destruct values as [|x values]; [done|].
  destruct (split_values_by_size_nonempty flag (x :: values))
    as (groups & vals & -> & Hgroups & Hvals & Hcat); [done|].
  f_equal. unfold runs_by_value.
  pose proof (before_StronglySorted_NoDup _ _ Hvals) as Hnd.
  assert (Hperm : concat groups ≡ₚ x :: values).
  { rewrite Hcat. apply sorted_Permutation. }
  assert (vals = sorted (remove_dups (x :: values)) flag) as <-.
  { apply (not_after_sorted_unique flag).
    - by apply before_StronglySorted_not_after.
    - apply sorted_StronglySorted.
    - rewrite sorted_Permutation.
      apply NoDup_Permutation; [done|apply NoDup_remove_dups|].
      intros y. rewrite elem_of_remove_dups, <- Hperm.
      symmetry. by apply groups_elem_of. }
  etrans; [by apply groups_as_runs|].
  apply list_fmap_ext. intros i v _.
  by rewrite (occurrences_Permutation v _ _ Hperm).
Qed.

Lemma StronglySorted_reverse_flip {A} (R : relation A) (l : list A) :
  StronglySorted R l -> StronglySorted (flip R) (reverse l).
Proof.
  induction 1 as [|x l _ IH Hx]; [constructor|].
  rewrite reverse_cons. apply StronglySorted_app. repeat split.
  - intros y z Hy Hz. apply list_elem_of_singleton in Hz as ->.
    rewrite elem_of_reverse in Hy. rewrite list.Forall_forall in Hx.
    unfold flip. by apply Hx.
  - done.
  - repeat constructor.
Qed.

Lemma sorted_descending_reverse (values : list Z) :
  sorted values true = reverse (sorted values false).
Proof.
  apply (not_after_sorted_unique true).
  - apply sorted_StronglySorted.
  - apply (StronglySorted_reverse_flip (not_after false)),
      sorted_StronglySorted.
  - by rewrite reverse_Permutation, !sorted_Permutation.
Qed.

Lemma remove_dups_replicate (v : Z) (n : nat) :
  remove_dups (replicate (S n) v) = [v].
Proof.
  induction n as [|n IH]; [done|].
  change (remove_dups (replicate (S (S n)) v))
    with (if decide_rel elem_of v (replicate (S n) v)
          then remove_dups (replicate (S n) v)
          else v :: remove_dups (replicate (S n) v)).
  destruct (decide_rel elem_of v (replicate (S n) v)) as [|Hnot]; [done|].
  exfalso. apply Hnot. apply list_elem_of_here.
Qed.

(** X5. [split_values_by_size] is determined by the values alone: it
    returns one group for each distinct value of the collection, made of as
    many copies of the value as the collection holds, the groups following
    the sorted order of their values. *)
Theorem split_values_by_size_counts (values : list Z) (large_values_first : bool) :
  split_values_by_size values large_values_first
  = Ok ((fun v => replicate (occurrences v values) v)
          <$> sorted (remove_dups values) large_values_first).
Proof. apply split_values_by_size_runs. Qed.

(** X6. Partitioning a returned group again, in either direction, gives
    that group alone. *)
Theorem split_values_by_size_group_fixed (values : list Z) (flag flag' : bool)
    (groups : list (list Z)) (g : list Z) :
  split_values_by_size values flag = Ok groups ->
  g ∈ groups ->
  split_values_by_size g flag' = Ok [g].
Proof.
  intros Hrun Hg.
  assert (exists v n, g = replicate (S n) v) as (v & n & ->).
  { destruct values as [|x values]; [injection Hrun as <-; by inversion Hg|].
    destruct (split_values_by_size_nonempty flag (x :: values))
      as (groups' & vals & Hrun' & Hgroups & _); [done|].
    assert (groups' = groups) as -> by congruence.
    apply list_elem_of_lookup in Hg as [i Hi].
    destruct (Forall2_lookup_l _ _ _ _ _ Hgroups Hi) as (v & _ & Hgv).
    exists v. pose proof (group_of_replicate _ _ Hgv) as Hrep.
    destruct Hgv as [Hne _]. destruct g as [|y g]; [done|].
    exists (length g). exact Hrep. }
  rewrite split_values_by_size_runs. unfold runs_by_value.
  rewrite remove_dups_replicate. f_equal.
  assert (sorted [v] flag' = [v]) as -> by (by destruct flag').
  csimpl. f_equal.
  change (v :: replicate n v) with (replicate (S n) v).
  rewrite occurrences_constant; [by rewrite length_replicate|].
  apply list.Forall_forall. intros y Hy. by apply elem_of_replicate_inv in Hy.
Qed.

Lemma split_values_by_size_group_fixed_witness :
  split_values_by_size [3; 3]%Z false = Ok [[3; 3]%Z].
Proof.
  apply (split_values_by_size_group_fixed [3; 1; 2; 3; 1; 1]%Z true false
           [[3; 3]; [2]; [1; 1; 1]]%Z [3; 3]%Z).
  - reflexivity.
  - apply list_elem_of_here.
Defined.

(** X7. The two directions mirror each other: with the flag set the groups
    are those of the ascending partition, in the opposite order. *)
Theorem split_values_by_size_descending_reverse (values : list Z) :
  exists ascending,
    split_values_by_size values false = Ok ascending
    /\ split_values_by_size values true = Ok (reverse ascending).
Proof.
  exists (runs_by_value values false).
  rewrite !split_values_by_size_runs. split; [done|]. f_equal.
  unfold runs_by_value. by rewrite sorted_descending_reverse, fmap_reverse.
Qed.

(** ** The bins of a run *)

Lemma for_each_invariant {St A} (body : St -> A -> result St)
    (P : St -> list A -> Prop) :
  (forall st x st' done, P st done -> body st x = Ok st' -> P st' (done ++ [x])) ->
  forall xs st fin done,
    P st done -> for_each body xs st = Ok fin -> P fin (done ++ xs).
Proof.
  intros Hstep xs. induction xs as [|x xs IH]; intros st fin done HP; simpl.
  - intros [= <-]. by rewrite app_nil_r.
  - destruct (body st x) as [st1| |] eqn:E; simpl; [|done|done].
    intros Hrun. rewrite (cons_middle x done xs), app_assoc.
    eapply IH; [|exact Hrun]. by eapply Hstep.
Qed.

Lemma fmap_append_same {B} (f : BinContainer.t -> B) (item : Z) (i : nat)
    (bins : list BinContainer.t) :
  (forall b, f (BinContainer.append b item) = f b) ->
  f <$> alter (fun b => BinContainer.append b item) i bins = f <$> bins.
Proof.
  intros Hf. revert i. induction bins as [|b bins IH]; intros [|i]; csimpl;
    try done.
  - by rewrite Hf.
  - by rewrite IH.
Qed.

Lemma allocate_from_frame (bin_sizes : list Z) (n i : nat) bins :
  allocate_from bin_sizes i n = Ok bins ->
  BinContainer.index <$> bins = seq i n
  /\ BinContainer.size <$> bins = take n (drop i bin_sizes).
Proof.
  revert i bins. induction n as [|n IH]; intros i bins; simpl.
  - intros [= <-]. by rewrite take_0.
  - destruct (getitem_cases bin_sizes i) as [(sz & Hsz & ->)|[_ ->]]; simpl;
      [|done].
    destruct (allocate_from bin_sizes (S i) n) as [rest| |] eqn:E; simpl;
      [|done|done].
    intros [= <-]. destruct (IH _ _ E) as [Hi Hs]. csimpl.
    rewrite Hi, Hs, (drop_S _ _ _ Hsz). done.
Qed.

Lemma allocate_bins_framed (bin_sizes : list Z) (n : nat) bins :
  allocate_bins bin_sizes n = Ok bins ->
  framed bin_sizes n bins /\ Forall untouched bins.
Proof.
  intros Hb. destruct (allocate_from_frame _ _ _ _ Hb) as [Hi Hs].
  destruct (allocate_from_fresh _ _ _ _ Hb) as [_ Hfresh].
  split; [|done]. split; [done|]. split; [done|].
  by apply placed_items_fresh.
Qed.

Lemma framed_append (bin_sizes : list Z) (n i : nat) (item : Z) bins :
  framed bin_sizes n bins ->
  framed bin_sizes n (alter (fun b => BinContainer.append b item) i bins).
Proof.
  intros (Hi & Hs & Hc). split; [|split].
  - by rewrite fmap_append_same.
  - by rewrite fmap_append_same.
  - by apply consistent_append.
Qed.

Lemma placed_items_untouched (bins : list BinContainer.t) :
  Forall untouched bins -> placed_items bins = [].
Proof. intros H. by apply placed_items_fresh. Qed.

(** Appending to a bin that is followed by empty bins only extends the
    sequence of placed items at its end. *)
Lemma placed_items_append_last (item : Z) (bins : list BinContainer.t) (i : nat) b :
  bins !! i = Some b ->
  Forall untouched (drop (S i) bins) ->
  placed_items (alter (fun b => BinContainer.append b item) i bins)
  = placed_items bins ++ [item].
Proof.
  revert i. induction bins as [|b0 bins IH]; intros [|i] Hi Hlater; try done.
  - simpl in Hlater. pose proof (placed_items_untouched bins Hlater) as Hnil.
    unfold placed_items in *. csimpl. rewrite Hnil. by rewrite !app_nil_r.
  - unfold placed_items in *. csimpl. rewrite (IH i Hi Hlater).
    by rewrite app_assoc.
Qed.

Lemma elem_of_concat_2 {A} (x : A) (l : list A) (ls : list (list A)) :
  x ∈ l -> l ∈ ls -> x ∈ concat ls.
Proof.
  intros Hx Hl. induction Hl as [l ls|l l' ls _ IH]; simpl;
    apply elem_of_app; auto.
Qed.

Lemma StronglySorted_sublist {A} (R : relation A) (l1 l2 : list A) :
  l1 `sublist_of` l2 -> StronglySorted R l2 -> StronglySorted R l1.
Proof.
  induction 1 as [|x l1 l2 Hsub IH|x l1 l2 Hsub IH]; intros Hs.
  - constructor.
  - apply StronglySorted_cons in Hs as [Hx Hs]. constructor; [by apply IH|].
    rewrite list.Forall_forall in *. intros y Hy. apply Hx.
    by eapply elem_of_sublist.
  - apply StronglySorted_cons in Hs as [_ Hs]. by apply IH.
Qed.

Lemma StronglySorted_concat_each {A} (R : relation A) (ls : list (list A)) :
  StronglySorted R (concat ls) -> Forall (StronglySorted R) ls.
Proof.
  induction ls as [|l ls IH]; simpl; intros Hs; [constructor|].
  apply StronglySorted_app in Hs as (_ & Hl & Hls). constructor; auto.
Qed.

(** ** order_sequentially, continued *)

(** One turn of the sequential loop: the item goes to the bin under the
    cursor when it fits there, and otherwise to the next bin. *)
Lemma seq_body_inv (st st' : seq_state) (item : Z) :
  seq_body st item = Ok st' ->
  exists b,
    seq_bins st !! seq_cidx st' = Some b
    /\ seq_bins st'
       = alter (fun b => BinContainer.append b item) (seq_cidx st') (seq_bins st)
    /\ ((seq_cidx st' = seq_cidx st /\ can_add_to_bin b item = true)
        \/ seq_cidx st' = S (seq_cidx st)).
Proof.
  unfold seq_body.
  destruct (getitem_cases (seq_bins st) (seq_cidx st)) as [(b & Hb & ->)|[_ ->]];
    simpl; [|done].
  destruct (can_add_to_bin b item) eqn:Hfit.
  - intros [= <-]. simpl. exists b. auto.
  - destruct (getitem_cases (seq_bins st) (S (seq_cidx st)))
      as [(b' & Hb' & ->)|[_ ->]]; simpl; [|done].
    intros [= <-]. simpl. exists b'. auto.
Qed.

(** What the sequential loop maintains; [done] is the part of the grouped
    order consumed so far. *)
Lemma seq_loop_invariant (bin_sizes : list Z) (n : nat) :
  forall items st fin done,
    (Forall untouched (drop (S (seq_cidx st)) (seq_bins st))
     /\ placed_items (seq_bins st) = done
     /\ Forall fits_unless_first (seq_bins st)
     /\ framed bin_sizes n (seq_bins st)) ->
    for_each seq_body items st = Ok fin ->
    (Forall untouched (drop (S (seq_cidx fin)) (seq_bins fin))
     /\ placed_items (seq_bins fin) = done ++ items
     /\ Forall fits_unless_first (seq_bins fin)
     /\ framed bin_sizes n (seq_bins fin)).
Proof.
  apply (for_each_invariant seq_body
    (fun st done =>
       Forall untouched (drop (S (seq_cidx st)) (seq_bins st))
       /\ placed_items (seq_bins st) = done
       /\ Forall fits_unless_first (seq_bins st)
       /\ framed bin_sizes n (seq_bins st))).
  intros st item st' done (Hlater & Hplaced & Hfirst & Hframe) Hbody.
  apply seq_body_inv in Hbody as (b & Hb & -> & Hcase).
  assert (Hlater' : Forall untouched (drop (S (seq_cidx st')) (seq_bins st))).
  { destruct Hcase as [[-> _]| ->]; [done|].
    replace (S (S (seq_cidx st))) with (S (seq_cidx st) + 1) by lia.
    rewrite <- drop_drop. by apply Forall_drop. }
  split; [|split; [|split]].
  - by rewrite drop_alter_lt by lia.
  - rewrite (placed_items_append_last _ _ _ _ Hb Hlater'). by rewrite Hplaced.
  - apply Forall_alter; [done|]. intros b0 Hb0 Hok x rest Hitems Hx.
    assert (b0 = b) as -> by congruence.
    destruct Hcase as [[_ Hfit]|Hadv].
    + unfold can_add_to_bin in Hfit. simpl. by apply Z.leb_le.
    + assert (Hfresh : untouched b).
      { rewrite Hadv in Hb.
        eapply (Forall_lookup_1 _ _ 0); [exact Hlater|].
        rewrite lookup_drop, Nat.add_0_r. exact Hb. }
      destruct Hfresh as [Hi Hc]. simpl in *. rewrite Hi in Hitems.
      injection Hitems as <- <-. lia.
  - by apply framed_append.
Qed.

Lemma order_sequentially_invariant (values bin_sizes : list Z) (flag : bool) bins :
  order_sequentially values bin_sizes flag = Ok bins ->
  exists n,
    compute_bin_count values bin_sizes = Ok n
    /\ placed_items bins = sorted values flag
    /\ Forall fits_unless_first bins
    /\ framed bin_sizes n bins.
Proof.
  intros Hrun.
  apply order_sequentially_unfold in Hrun as (n & bin_list & fin & Hn & Hb & Hloop & ->).
  destruct (allocate_bins_framed _ _ _ Hb) as [Hframe Hfresh].
  exists n. split; [done|].
  assert (Hfirst : Forall fits_unless_first bin_list).
  { eapply List.Forall_impl; [|exact Hfresh].
    intros b [Hi _] x rest Hitems. congruence. }
  eapply (seq_loop_invariant bin_sizes n _ _ _ []) in Hloop.
  - by destruct Hloop as (_ & Hp & Hf & Hfr).
  - simpl. split; [by apply Forall_drop|]. split; [|done].
    by apply placed_items_untouched.
Qed.

(** X8. The sequential policy fills the bins in the grouped order: read
    bin after bin, the items of the returned bins are the sorted collection
    itself, so every bin holds a consecutive stretch of it and is ordered
    in the requested direction. *)
Theorem order_sequentially_keeps_order (values bin_sizes : list Z)
    (large_items_at_top : bool) (bins : list BinContainer.t) :
  order_sequentially values bin_sizes large_items_at_top = Ok bins ->
  placed_items bins = sorted values large_items_at_top
  /\ Forall (fun b => StronglySorted (not_after large_items_at_top)
                        (BinContainer.items b)) bins.
Proof.
  intros Hrun.
  apply order_sequentially_invariant in Hrun as (n & _ & Hplaced & _ & _).
  split; [done|].
  pose proof (sorted_StronglySorted large_items_at_top values) as Hs.
  rewrite <- Hplaced in Hs. unfold placed_items in Hs.
  apply StronglySorted_concat_each in Hs.
  rewrite list.Forall_fmap in Hs. exact Hs.
Qed.

Lemma order_sequentially_keeps_order_witness :
  let bins := [BinContainer.mk 0 3 3 [1; 2]; BinContainer.mk 1 4 3 [3]]%Z in
  placed_items bins = sorted [3; 1; 2]%Z false
  /\ Forall (fun b => StronglySorted (not_after false) (BinContainer.items b)) bins.
Proof.
  intros bins.
  apply (order_sequentially_keeps_order [3; 1; 2]%Z [3; 4; 9]%Z false bins).
  reflexivity.
Defined.

(** X9. In the bins returned by [order_sequentially] a bin is over its
    capacity only if the first item placed in it is larger than the
    capacity: every later append to a bin is guarded by [can_add_to_bin]. *)
Theorem order_sequentially_overfull_only_by_first (values bin_sizes : list Z)
    (large_items_at_top : bool) (bins : list BinContainer.t) :
  order_sequentially values bin_sizes large_items_at_top = Ok bins ->
  Forall fits_unless_first bins.
Proof.
  intros Hrun.
  by apply order_sequentially_invariant in Hrun as (n & _ & _ & Hfirst & _).
Qed.

Lemma order_sequentially_overfull_only_by_first_witness :
  Forall fits_unless_first
    [BinContainer.mk 0 3 2 [2]%Z; BinContainer.mk 1 2 3 [3]%Z].
Proof.
  apply (order_sequentially_overfull_only_by_first [2; 3]%Z [3; 2]%Z false).
  reflexivity.
Defined.

(** X10. When no item is larger than any capacity, [order_sequentially]
    leaves no bin over its capacity. *)
Theorem order_sequentially_within_capacity (values bin_sizes : list Z)
    (large_items_at_top : bool) (bins : list BinContainer.t) :
  order_sequentially values bin_sizes large_items_at_top = Ok bins ->
  (forall v c, v ∈ values -> c ∈ bin_sizes -> (v <= c)%Z) ->
  Forall within_capacity bins.
Proof.
  intros Hrun Hfit.
  apply order_sequentially_invariant in Hrun
    as (n & _ & Hplaced & Hfirst & (_ & Hsize & _)).
  apply Forall_lookup. intros j b Hb Hne.
  assert (Hc : BinContainer.size b ∈ bin_sizes).
  { apply (subseteq_take n). rewrite <- Hsize.
    apply list_elem_of_fmap_2. by eapply list_elem_of_lookup_2. }
  destruct (BinContainer.items b) as [|x rest] eqn:Hitems; [done|].
  eapply (Forall_lookup_1 _ _ _ _ Hfirst Hb); [exact Hitems|].
  apply Hfit; [|done].
  rewrite <- (sorted_Permutation large_items_at_top values), <- Hplaced.
  unfold placed_items. apply (elem_of_concat_2 _ (x :: rest));
    [apply list_elem_of_here|].
  rewrite <- Hitems. apply list_elem_of_fmap_2. by eapply list_elem_of_lookup_2.
Qed.

Lemma order_sequentially_within_capacity_witness :
  Forall within_capacity
    [BinContainer.mk 0 3 3 [1; 2]; BinContainer.mk 1 4 3 [3]]%Z.
Proof.
  apply (order_sequentially_within_capacity [3; 1; 2]%Z [3; 4; 9]%Z false).
  - reflexivity.
  - intros v c Hv Hc.
    assert (Hv' : (v <= 3)%Z).
    { repeat (apply list.elem_of_cons in Hv as [->|Hv]; [done|]).
      by apply elem_of_nil in Hv. }
    assert (Hc' : (3 <= c)%Z).
    { repeat (apply list.elem_of_cons in Hc as [->|Hc]; [done|]).
      by apply elem_of_nil in Hc. }
    exact (Z.le_trans _ _ _ Hv' Hc').
Defined.

(** ** evenly_distribute, continued *)

Lemma framed_lookup (bin_sizes : list Z) (n : nat) (bins : list BinContainer.t) :
  framed bin_sizes n bins ->
  length bins = n
  /\ forall j b, bins !! j = Some b ->
       BinContainer.index b = j
       /\ bin_sizes !! j = Some (BinContainer.size b)
       /\ BinContainer.count b = sum (BinContainer.items b).
Proof.
  intros (Hi & Hs & Hc).
  assert (Hlen : length bins = n).
  { rewrite <- (length_fmap BinContainer.index), Hi. apply length_seq. }
  split; [done|]. intros j b Hb.
  pose proof (lookup_lt_Some _ _ _ Hb) as Hj.
  split; [|split].
  - assert (H : (BinContainer.index <$> bins) !! j = Some (BinContainer.index b))
      by (by rewrite list_lookup_fmap, Hb).
    rewrite Hi in H. apply lookup_seq in H as [-> _]. done.
  - assert (H : (BinContainer.size <$> bins) !! j = Some (BinContainer.size b))
      by (by rewrite list_lookup_fmap, Hb).
    rewrite Hs, lookup_take_lt in H by lia. done.
  - by apply (Forall_lookup_1 _ _ _ _ Hc Hb).
Qed.

(** What the round-robin loop maintains; [done] is the part of the grouped
    order consumed so far. *)
Lemma rr_loop_invariant (bin_sizes : list Z) (n : nat) :
  forall items st fin done,
    (framed bin_sizes n (rr_bins st)
     /\ Forall (fun b => BinContainer.items b `sublist_of` done) (rr_bins st)) ->
    for_each (rr_body n) items st = Ok fin ->
    (framed bin_sizes n (rr_bins fin)
     /\ Forall (fun b => BinContainer.items b `sublist_of` done ++ items)
          (rr_bins fin)).
Proof.
  apply (for_each_invariant (rr_body n)
    (fun st done =>
       framed bin_sizes n (rr_bins st)
       /\ Forall (fun b => BinContainer.items b `sublist_of` done) (rr_bins st))).
  intros st item st' done [Hframe Hsub] Hbody.
  apply rr_body_inv in Hbody as (_ & [_ (b & Hb & Hcase)] & _).
  assert (Hsub' : Forall (fun b => BinContainer.items b `sublist_of` done ++ [item])
                    (rr_bins st)).
  { eapply List.Forall_impl; [|exact Hsub].
    intros b0 Hb0. by apply sublist_inserts_r. }
  destruct (can_add_to_bin b item); destruct Hcase as [-> _]; [|done].
  split; [by apply framed_append|].
  apply Forall_alter; [done|]. intros b0 Hb0 _. simpl.
  apply sublist_app; [|done].
  by apply (Forall_lookup_1 _ _ _ _ Hsub Hb0).
Qed.

Lemma evenly_distribute_invariant (values bin_sizes : list Z) (flag : bool) bins :
  evenly_distribute values bin_sizes flag = Ok bins ->
  exists n,
    compute_bin_count values bin_sizes = Ok n
    /\ framed bin_sizes n bins
    /\ Forall (fun b => BinContainer.items b `sublist_of` sorted values flag) bins.
Proof.
  unfold evenly_distribute.
  destruct (evenly_distribute_run values bin_sizes flag) as [fin| |] eqn:Hrun;
    simpl; [|done|done].
  intros [= <-].
  apply evenly_distribute_run_inv in Hrun
    as (n & bin_list & groups & Hn & Hb & _ & Hcat & Hloop).
  destruct (allocate_bins_framed _ _ _ Hb) as [Hframe Hfresh].
  exists n. split; [done|]. rewrite Hcat in Hloop.
  eapply (rr_loop_invariant bin_sizes n _ _ _ []) in Hloop; [done|].
  simpl. split; [done|].
  eapply List.Forall_impl; [|exact Hfresh].
  intros b [-> _]. constructor.
Qed.

(** X11. The bins a policy returns are the ones built from the capacity
    list: there are [bin_count] of them, the bin at position [j] carries
    index [j] and capacity [bin_sizes[j]], and its running sum [count] is
    the sum of the items it holds. *)
Theorem returned_bins_are_framed (values bin_sizes : list Z)
    (large_items_at_top : bool) (bins : list BinContainer.t) :
  order_sequentially values bin_sizes large_items_at_top = Ok bins
  \/ evenly_distribute values bin_sizes large_items_at_top = Ok bins ->
  exists bin_count,
    compute_bin_count values bin_sizes = Ok bin_count
    /\ length bins = bin_count
    /\ forall j b, bins !! j = Some b ->
         BinContainer.index b = j
         /\ bin_sizes !! j = Some (BinContainer.size b)
         /\ BinContainer.count b = sum (BinContainer.items b).
Proof.
  intros [Hrun|Hrun].
  - apply order_sequentially_invariant in Hrun as (n & Hn & _ & _ & Hframe).
    exists n. split; [done|]. by apply framed_lookup.
  - apply evenly_distribute_invariant in Hrun as (n & Hn & Hframe & _).
    exists n. split; [done|]. by apply framed_lookup.
Qed.

Lemma returned_bins_are_framed_witness :
  exists bin_count,
    compute_bin_count [2; 1; 2; 1]%Z [2; 4]%Z = Ok bin_count
    /\ length [BinContainer.mk 0 2 1 [1]; BinContainer.mk 1 4 3 [1; 2]]%Z
       = bin_count
    /\ forall j b,
         [BinContainer.mk 0 2 1 [1]; BinContainer.mk 1 4 3 [1; 2]]%Z !! j = Some b ->
         BinContainer.index b = j
         /\ [2; 4]%Z !! j = Some (BinContainer.size b)
         /\ BinContainer.count b = sum (BinContainer.items b).
Proof.
  apply (returned_bins_are_framed [2; 1; 2; 1]%Z [2; 4]%Z false).
  right. reflexivity.
Defined.

(** X12. Every append made by [evenly_distribute] is guarded: a returned
    bin that holds an item is within its capacity, and when no capacity is
    negative every returned bin is. *)
Theorem evenly_distribute_never_overfills (values bin_sizes : list Z)
    (large_items_at_top : bool) (bins : list BinContainer.t) :
  evenly_distribute values bin_sizes large_items_at_top = Ok bins ->
  Forall within_capacity bins
  /\ (Forall (fun c => 0 <= c)%Z bin_sizes ->
      Forall (fun b => (BinContainer.count b <= BinContainer.size b)%Z) bins).
Proof.
  intros Hrun.
  pose proof (evenly_distribute_within_capacity _ _ _ _ Hrun) as Hwithin.
  split; [done|]. intros Hcaps.
  apply evenly_distribute_invariant in Hrun as (n & _ & Hframe & _).
  apply framed_lookup in Hframe as [_ Hframe].
  apply Forall_lookup. intros j b Hb.
  destruct (Hframe j b Hb) as (_ & Hsize & Hcount).
  destruct (BinContainer.items b) as [|x rest] eqn:Hitems.
  - rewrite sum_nil in Hcount. rewrite Hcount.
    rewrite list.Forall_forall in Hcaps. apply Hcaps.
    by eapply list_elem_of_lookup_2.
  - apply (Forall_lookup_1 _ _ _ _ Hwithin Hb). by rewrite Hitems.
Qed.

Lemma evenly_distribute_never_overfills_witness :
  let bins := [BinContainer.mk 0 2 1 [1]; BinContainer.mk 1 4 3 [1; 2]]%Z in
  Forall within_capacity bins
  /\ (Forall (fun c => 0 <= c)%Z [2; 4]%Z ->
      Forall (fun b => (BinContainer.count b <= BinContainer.size b)%Z) bins).
Proof.
  intros bins.
  apply (evenly_distribute_never_overfills [2; 1; 2; 1]%Z [2; 4]%Z false bins).
  reflexivity.
Defined.

(** X13. Each bin returned by [evenly_distribute] holds its items in the
    grouped order: they form a subsequence of the sorted collection, so
    every bin is ordered in the requested direction. *)
Theorem evenly_distribute_keeps_order (values bin_sizes : list Z)
    (large_items_at_top : bool) (bins : list BinContainer.t) :
  evenly_distribute values bin_sizes large_items_at_top = Ok bins ->
  Forall (fun b =>
            BinContainer.items b `sublist_of` sorted values large_items_at_top
            /\ StronglySorted (not_after large_items_at_top)
                 (BinContainer.items b)) bins.
Proof.
  intros Hrun.
  apply evenly_distribute_invariant in Hrun as (n & _ & _ & Hsub).
  eapply List.Forall_impl; [|exact Hsub].
  intros b Hb. split; [done|].
  eapply StronglySorted_sublist; [exact Hb|]. apply sorted_StronglySorted.
Qed.

Lemma evenly_distribute_keeps_order_witness :
  Forall (fun b =>
            BinContainer.items b `sublist_of` sorted [2; 1; 2; 1]%Z true
            /\ StronglySorted (not_after true) (BinContainer.items b))
    [BinContainer.mk 0 2 2 [2]; BinContainer.mk 1 4 3 [2; 1]]%Z.
Proof.
  apply (evenly_distribute_keeps_order [2; 1; 2; 1]%Z [2; 4]%Z true).
  reflexivity.
Defined.

Lemma offers_step (t : nat) (st st' : rr_state) (item : Z) :
  offered_to t st item st' ->
  (forall b, rr_bins st !! t = Some b -> BinContainer.index b = t) ->
  forall j, offers j st' = offers j st + (if decide (j = t) then 1 else 0).
Proof.
  intros [_ (b & Hb & Hcase)] Hidx j. unfold offers.
  specialize (Hidx b Hb).
  destruct (can_add_to_bin b item); destruct Hcase as [-> ->].
  - rewrite list_lookup_alter. destruct (decide (t = j)) as [->|Hne].
    + rewrite decide_True by done. rewrite Hb. simpl.
      rewrite length_app. simpl. lia.
    + rewrite decide_False by congruence. lia.
  - rewrite list.filter_app, length_app.
    rewrite filter_cons, filter_nil. simpl. rewrite Hidx.
    destruct (decide (t = j)) as [->|Hne].
    + rewrite decide_True by done. simpl. lia.
    + rewrite decide_False by congruence. simpl. lia.
Qed.

(** The rotation gives bin [j] its turn at [j], [j + n], [j + 2n], ... *)
Lemma share_step (n k j o : nat) :
  j < n ->
  k <= j + n * o < k + n ->
  S k <= j + n * (o + (if decide (j = k mod n) then 1 else 0)) < S k + n.
Proof.
  intros Hj Hk.
  pose proof (Nat.div_mod_eq k n) as Hdiv.
  pose proof (Nat.mod_upper_bound k n ltac:(lia)) as Hmod.
  destruct (decide (j = k mod n)) as [Heq|Hne].
  - rewrite <- Heq in Hdiv. assert (o = k / n) by nia. subst o. nia.
  - assert (k <> j + n * o).
    { intros Hkj. apply Hne. apply (Nat.mod_unique k n o j); lia. }
    lia.
Qed.

Lemma rr_loop_shares (bin_sizes : list Z) (n : nat) :
  forall items st fin (done : list Z),
    (framed bin_sizes n (rr_bins st)
     /\ forall j, j < n ->
          rr_nidx st <= j + n * offers j st < rr_nidx st + n) ->
    for_each (rr_body n) items st = Ok fin ->
    (framed bin_sizes n (rr_bins fin)
     /\ forall j, j < n ->
          rr_nidx fin <= j + n * offers j fin < rr_nidx fin + n).
Proof.
  apply (for_each_invariant (rr_body n)
    (fun st (_ : list Z) =>
       framed bin_sizes n (rr_bins st)
       /\ forall j, j < n ->
            rr_nidx st <= j + n * offers j st < rr_nidx st + n)).
  intros st item st' _ [Hframe Hshare] Hbody.
  apply rr_body_inv in Hbody as (Hpos & Hoff & ->).
  split.
  - destruct Hoff as [_ (b & Hb & Hcase)].
    destruct (can_add_to_bin b item); destruct Hcase as [-> _]; [|done].
    by apply framed_append.
  - intros j Hj. rewrite (offers_step _ _ _ _ Hoff).
    + apply share_step; [done|]. by apply Hshare.
    + intros b Hb. by apply (framed_lookup _ _ _ Hframe).
Qed.

(** X14. [evenly_distribute] hands out the turns evenly.  Counting for each
    bin the items it was offered (held or skipped), bin [j] gets the turns
    [j], [j + bin_count], ... below the number of items; so of two bins the
    earlier one is offered as many items as the later one, or one more.
    When nothing was skipped the same holds for the items the bins hold. *)
Theorem evenly_distribute_offers_evenly (values bin_sizes : list Z)
    (large_items_at_top : bool) (fin : rr_state) :
  evenly_distribute_run values bin_sizes large_items_at_top = Ok fin ->
  exists bin_count,
    compute_bin_count values bin_sizes = Ok bin_count
    /\ (forall j, j < bin_count ->
          length values <= j + bin_count * offers j fin
                        < length values + bin_count)
    /\ (forall i j, i <= j -> j < bin_count ->
          offers j fin <= offers i fin <= offers j fin + 1)
    /\ (rr_notices fin = [] ->
        forall i j bi bj,
          i <= j -> rr_bins fin !! i = Some bi -> rr_bins fin !! j = Some bj ->
          length (BinContainer.items bj) <= length (BinContainer.items bi)
          <= length (BinContainer.items bj) + 1).
Proof.
  intros Hrun.
  apply evenly_distribute_run_inv in Hrun
    as (n & bin_list & groups & Hn & Hb & _ & Hcat & Hloop).
  destruct (allocate_bins_framed _ _ _ Hb) as [Hframe Hfresh].
  destruct (rr_loop_trace _ _ _ _ Hloop) as [Hnidx _].
  rewrite Hcat, sorted_length in Hnidx.
  eapply (rr_loop_shares bin_sizes n _ _ _ []) in Hloop.
  2:{ split; [done|]. intros j Hj. unfold offers. simpl.
      destruct (bin_list !! j) as [b|] eqn:Hbj; simpl; [|lia].
      destruct (Forall_lookup_1 _ _ _ _ Hfresh Hbj) as [-> _]. simpl. lia. }
  destruct Hloop as [Hframe' Hshare]. rewrite Hnidx in Hshare.
  assert (Hcmp : forall i j, i <= j -> j < n ->
            offers j fin <= offers i fin <= offers j fin + 1).
  { intros i j Hij Hj.
    pose proof (Hshare i ltac:(lia)). pose proof (Hshare j Hj). nia. }
  exists n. split; [done|]. split; [done|]. split; [done|].
  intros Hnone i j bi bj Hij Hbi Hbj.
  apply framed_lookup in Hframe' as [Hlen _].
  pose proof (lookup_lt_Some _ _ _ Hbj) as Hj.
  specialize (Hcmp i j Hij ltac:(lia)).
  unfold offers in Hcmp. rewrite Hnone, Hbi, Hbj in Hcmp. simpl in Hcmp.
  lia.
Qed.

Lemma evenly_distribute_offers_evenly_witness :
  exists fin bin_count,
    evenly_distribute_run [2; 1; 2; 1; 1]%Z [2; 4; 3]%Z false = Ok fin
    /\ compute_bin_count [2; 1; 2; 1; 1]%Z [2; 4; 3]%Z = Ok bin_count
    /\ (forall i j, i <= j -> j < bin_count ->
          offers j fin <= offers i fin <= offers j fin + 1).
Proof.
  eexists.
  destruct (evenly_distribute_offers_evenly [2; 1; 2; 1; 1]%Z [2; 4; 3]%Z false _
              eq_refl) as (n & Hn & _ & Hcmp & _).
  exists n. split; [reflexivity|]. split; [exact Hn|exact Hcmp].
Defined.

(** ** The exceptions of the policies *)

Lemma seq_body_outcome (st : seq_state) (item : Z) :
  (exists st', seq_body st item = Ok st')
  \/ seq_body st item = Raise IndexError.
Proof.
  unfold seq_body.
  destruct (getitem_cases (seq_bins st) (seq_cidx st)) as [(b & Hb & ->)|[_ ->]];
    simpl; [|by right].
  destruct (can_add_to_bin b item); [eauto|].
  destruct (getitem_cases (seq_bins st) (S (seq_cidx st)))
    as [(b' & Hb' & ->)|[_ ->]]; simpl; [eauto|by right].
Qed.

Lemma seq_loop_outcome (items : list Z) (st : seq_state) :
  (exists fin, for_each seq_body items st = Ok fin)
  \/ for_each seq_body items st = Raise IndexError.
Proof.
  revert st. induction items as [|item items IH]; intros st; simpl; [eauto|].
  destruct (seq_body_outcome st item) as [[st' ->]| ->]; simpl;
    [apply IH|by right].
Qed.

Lemma no_demand_no_bins (values bin_sizes : list Z) :
  (sum values <= 0)%Z ->
  compute_bin_count values bin_sizes = Ok 0
  /\ allocate_bins bin_sizes 0 = Ok [].
Proof.
  intros Hle. split; [|done]. unfold compute_bin_count. simpl.
  destruct (Z.ltb_spec 0 (sum values)); [lia|done].
Qed.

Lemma sorted_nonempty (values : list Z) (flag : bool) :
  values <> [] -> exists x rest, sorted values flag = x :: rest.
Proof.
  intros Hne. pose proof (sorted_length flag values) as Hlen.
  destruct (sorted values flag) as [|x rest]; [|eauto].
  destruct values; [done|simpl in Hlen; lia].
Qed.

(** X15. The only exception [order_sequentially] can raise is
    [IndexError].  It does so, in particular, for a non-empty collection
    whose total size is not positive: no bin is planned, and the first item
    finds no bin under the cursor. *)
Theorem order_sequentially_raises_only_IndexError (values bin_sizes : list Z)
    (large_items_at_top : bool) :
  ((exists bins, order_sequentially values bin_sizes large_items_at_top = Ok bins)
   \/ order_sequentially values bin_sizes large_items_at_top = Raise IndexError)
  /\ (values <> [] /\ (sum values <= 0)%Z ->
      order_sequentially values bin_sizes large_items_at_top = Raise IndexError).
Proof.
  destruct (split_values_by_size_concat values large_items_at_top)
    as (groups & Hg & Hcat).
  split.
  - unfold order_sequentially.
    pose proof (compute_bin_count_post values bin_sizes) as Hpost.
    destruct (compute_bin_count values bin_sizes) as [n|[]|]; simpl in *;
      [|by right|done|done].
    destruct Hpost as (Hle & _ & _).
    destruct (allocate_bins_Ok bin_sizes n Hle) as (bin_list & -> & _ & _).
    simpl. rewrite Hg. simpl. rewrite for_each_nested.
    destruct (seq_loop_outcome (concat groups)
                {| seq_bins := bin_list; seq_cidx := 0 |}) as [[fin ->]| ->];
      simpl; eauto.
  - intros [Hne Hle]. unfold order_sequentially.
    destruct (no_demand_no_bins values bin_sizes Hle) as [-> _]. simpl.
    rewrite Hg. simpl. rewrite for_each_nested, Hcat.
    destruct (sorted_nonempty values large_items_at_top Hne) as (x & rest & ->).
    done.
Qed.

(** X16. [evenly_distribute] raises [ZeroDivisionError] exactly for a
    non-empty collection whose total size is not positive (no bin is
    planned, and the first item's turn divides by zero); it raises
    [IndexError] exactly when [compute_bin_count] does; in every other case
    it returns. *)
Theorem evenly_distribute_exceptions (values bin_sizes : list Z)
    (large_items_at_top : bool) :
  (evenly_distribute values bin_sizes large_items_at_top = Raise ZeroDivisionError
   <-> values <> [] /\ (sum values <= 0)%Z)
  /\ (evenly_distribute values bin_sizes large_items_at_top = Raise IndexError
      <-> compute_bin_count values bin_sizes = Raise IndexError)
  /\ ((exists bins, evenly_distribute values bin_sizes large_items_at_top = Ok bins)
      \/ evenly_distribute values bin_sizes large_items_at_top = Raise ZeroDivisionError
      \/ evenly_distribute values bin_sizes large_items_at_top = Raise IndexError).
Proof.
  destruct (split_values_by_size_concat values large_items_at_top)
    as (groups & Hg & Hcat).
  destruct (compute_bin_count_total values bin_sizes) as [[n Hn]|Hn].
  - destruct (decide (values = [] \/ (0 < sum values)%Z)) as [Hdom|Hdom].
    + destruct (evenly_distribute_run_Ok values bin_sizes large_items_at_top
                  n Hn Hdom) as [fin Hrun].
      unfold evenly_distribute. rewrite Hrun, Hn. simpl.
      split; [|split; [|eauto]].
      * split; [done|]. intros [Hne Hle]. destruct Hdom; [done|lia].
      * split; done.
    + assert (Hne : values <> []) by tauto.
      assert (Hle : (sum values <= 0)%Z) by lia.
      assert (Hrun : evenly_distribute_run values bin_sizes large_items_at_top
                     = Raise ZeroDivisionError).
      { unfold evenly_distribute_run.
        destruct (no_demand_no_bins values bin_sizes Hle) as [-> _]. simpl.
        rewrite Hg. simpl. rewrite for_each_nested, Hcat.
        destruct (sorted_nonempty values large_items_at_top Hne) as (x & rest & ->).
        done. }
      unfold evenly_distribute. rewrite Hrun, Hn. simpl.
      split; [|split; [|auto]].
      * split; done.
      * split; done.
  - assert (Hrun : evenly_distribute values bin_sizes large_items_at_top
                   = Raise IndexError).
    { unfold evenly_distribute, evenly_distribute_run. by rewrite Hn. }
    rewrite Hrun, Hn. split; [|split; [|auto]].
    + split; [done|]. intros [_ Hle].
      destruct (no_demand_no_bins values bin_sizes Hle) as [H0 _]. congruence.
    + split; done.
Qed.

(** ** A collection that fits the first bin *)

Lemma one_bin_count (values rest : list Z) (c : Z) :
  (0 < sum values <= c)%Z ->
  compute_bin_count values (c :: rest) = Ok 1.
Proof.
  intros [Hpos Hle]. unfold compute_bin_count. simpl.
  destruct (Z.ltb_spec 0 (sum values)) as [_|]; [|lia]. simpl.
  destruct (Z.ltb_spec (0 + c) (sum values)); [lia|done].
Qed.

Lemma seq_body_one_bin (c x : Z) (done : list Z) :
  (sum done + x <= c)%Z ->
  seq_body {| seq_bins := [BinContainer.mk 0 c (sum done) done]; seq_cidx := 0 |} x
  = Ok {| seq_bins := [BinContainer.mk 0 c (sum (done ++ [x])) (done ++ [x])];
          seq_cidx := 0 |}.
Proof.
  intros Hle. unfold seq_body, getitem, can_add_to_bin. simpl.
  destruct (Z.leb_spec (sum done + x) c) as [_|]; [|lia].
  unfold BinContainer.append. simpl. by rewrite sum_snoc.
Qed.

Lemma seq_loop_one_bin (c : Z) (items done : list Z) :
  Forall (fun v => 0 <= v)%Z items ->
  (sum done + sum items <= c)%Z ->
  for_each seq_body items
    {| seq_bins := [BinContainer.mk 0 c (sum done) done]; seq_cidx := 0 |}
  = Ok {| seq_bins := [BinContainer.mk 0 c (sum (done ++ items)) (done ++ items)];
          seq_cidx := 0 |}.
Proof.
  intros Hpos. revert done. induction Hpos as [|x items Hx Hpos IH]; intros done Hle.
  - simpl. by rewrite app_nil_r.
  - rewrite sum_cons in Hle. pose proof (sum_nonneg items Hpos) as Hrest.
    simpl. rewrite seq_body_one_bin by lia. simpl.
    rewrite IH by (rewrite sum_snoc; lia).
    by rewrite <- app_assoc.
Qed.

Lemma rr_body_one_bin (c x : Z) (done : list Z) (k : nat) :
  (sum done + x <= c)%Z ->
  rr_body 1 {| rr_bins := [BinContainer.mk 0 c (sum done) done];
               rr_cidx := 0; rr_nidx := k; rr_notices := [] |} x
  = Ok {| rr_bins := [BinContainer.mk 0 c (sum (done ++ [x])) (done ++ [x])];
          rr_cidx := 0; rr_nidx := S k; rr_notices := [] |}.
Proof.
  intros Hle. unfold rr_body, py_mod. cbn [rr_nidx]. rewrite Nat.mod_1_r.
  unfold getitem, can_add_to_bin. simpl.
  destruct (Z.leb_spec (sum done + x) c) as [_|]; [|lia].
  unfold BinContainer.append. simpl. by rewrite sum_snoc.
Qed.

Lemma rr_loop_one_bin (c : Z) (items done : list Z) (k : nat) :
  Forall (fun v => 0 <= v)%Z items ->
  (sum done + sum items <= c)%Z ->
  for_each (rr_body 1) items
    {| rr_bins := [BinContainer.mk 0 c (sum done) done];
       rr_cidx := 0; rr_nidx := k; rr_notices := [] |}
  = Ok {| rr_bins := [BinContainer.mk 0 c (sum (done ++ items)) (done ++ items)];
          rr_cidx := 0; rr_nidx := k + length items; rr_notices := [] |}.
Proof.
  intros Hpos. revert done k.
  induction Hpos as [|x items Hx Hpos IH]; intros done k Hle.
  - simpl. by rewrite app_nil_r, Nat.add_0_r.
  - rewrite sum_cons in Hle. pose proof (sum_nonneg items Hpos) as Hrest.
    cbn [for_each]. rewrite rr_body_one_bin by lia. simpl.
    rewrite IH by (rewrite sum_snoc; lia).
    rewrite <- app_assoc. simpl. do 2 f_equal. lia.
Qed.

(** X17. When the items have positive sizes and together fit the first
    capacity, both policies use that bin alone and put every item in it, in
    sorted order; [evenly_distribute] skips nothing. *)
Theorem single_bin_holds_everything (values rest : list Z) (c : Z)
    (large_items_at_top : bool) :
  values <> [] ->
  Forall (fun v => 1 <= v)%Z values ->
  (sum values <= c)%Z ->
  let bin := BinContainer.mk 0 c (sum values) (sorted values large_items_at_top) in
  order_sequentially values (c :: rest) large_items_at_top = Ok [bin]
  /\ evenly_distribute values (c :: rest) large_items_at_top = Ok [bin]
  /\ rr_notices <$> evenly_distribute_run values (c :: rest) large_items_at_top
     = Ok [].
Proof.
  intros Hne Hpos Hle bin.
  pose proof (sum_pos_nonempty values Hne Hpos) as Hsum.
  pose proof (one_bin_count values rest c ltac:(lia)) as Hn.
  pose proof (sorted_Permutation large_items_at_top values) as Hperm.
  assert (Hpos' : Forall (fun v => 0 <= v)%Z (sorted values large_items_at_top)).
  { rewrite Hperm. eapply List.Forall_impl; [|exact Hpos]. simpl. lia. }
  assert (Hle' : (sum [] + sum (sorted values large_items_at_top) <= c)%Z).
  { rewrite (sum_Permutation _ _ Hperm), sum_nil. lia. }
  destruct (split_values_by_size_concat values large_items_at_top)
    as (groups & Hg & Hcat).
  assert (Hrun : evenly_distribute_run values (c :: rest) large_items_at_top
                 = Ok {| rr_bins := [bin]; rr_cidx := 0;
                         rr_nidx := length (sorted values large_items_at_top);
                         rr_notices := [] |}).
  { rewrite (evenly_distribute_run_unfold _ _ _ 1 [BinContainer.init 0 c] groups
               Hn eq_refl Hg), Hcat.
    pose proof (rr_loop_one_bin c _ [] 0 Hpos' Hle') as Hloop.
    rewrite sum_nil in Hloop. simpl in Hloop. unfold rr_init, BinContainer.init.
    rewrite Hloop. unfold bin. by rewrite (sum_Permutation _ _ Hperm). }
  split; [|split].
  - unfold order_sequentially. rewrite Hn. simpl. rewrite Hg. simpl.
    rewrite for_each_nested, Hcat.
    pose proof (seq_loop_one_bin c _ [] Hpos' Hle') as Hloop.
    rewrite sum_nil in Hloop. simpl in Hloop.
    unfold BinContainer.init. rewrite Hloop. simpl.
    unfold bin. by rewrite (sum_Permutation _ _ Hperm).
  - unfold evenly_distribute. by rewrite Hrun.
  - by rewrite Hrun.
Qed.

Lemma single_bin_holds_everything_witness :
  order_sequentially [1; 2; 1]%Z [30]%Z true
  = Ok [BinContainer.mk 0 30 4 [2; 1; 1]%Z]
  /\ evenly_distribute [1; 2; 1]%Z [30]%Z true
     = Ok [BinContainer.mk 0 30 4 [2; 1; 1]%Z]
  /\ rr_notices <$> evenly_distribute_run [1; 2; 1]%Z [30]%Z true = Ok [].
Proof.
  apply (single_bin_holds_everything [1; 2; 1]%Z [] 30%Z true).
  - discriminate.
  - repeat constructor; vm_compute; discriminate.
  - vm_compute. discriminate.
Defined.

(** ** Items of unit size *)

Lemma sum_ones (items : list Z) :
  Forall (fun v => v = 1%Z) items -> sum items = Z.of_nat (length items).
Proof.
  induction 1 as [|x items -> _ IH]; [done|].
  rewrite sum_cons, IH. simpl length. lia.
Qed.

Section UnitItemsSequential.
Variables (bin_sizes : list Z) (n : nat) (total : Z).
Hypothesis Hcaps : Forall (fun c => 1 <= c)%Z bin_sizes.
Hypothesis Hcover : (total <= sum (take n bin_sizes))%Z.

Lemma seq_body_filling (st : seq_state) (done : list Z) :
  filling bin_sizes n st done ->
  (sum done + 1 <= total)%Z ->
  exists st', seq_body st 1 = Ok st' /\ filling bin_sizes n st' (done ++ [1%Z]).
Proof using Hcaps Hcover.
  intros ((bc & Hbc & Hfit & Hsum) & Hlater & Hframe & Hwithin) Hroom.
  destruct (framed_lookup _ _ _ Hframe) as [Hlen Hlook].
  destruct (Hlook _ _ Hbc) as (_ & Hsize & _).
  unfold seq_body. rewrite (proj2 (getitem_Ok _ _ _) Hbc). simpl.
  unfold can_add_to_bin.
  destruct (Z.leb_spec (BinContainer.count bc + 1) (BinContainer.size bc))
    as [Hadd|Hfull].
  - eexists. split; [done|]. split; [|split; [|split]]; simpl.
    + exists (BinContainer.append bc 1). rewrite list_lookup_alter_eq, Hbc.
      simpl. rewrite sum_snoc. split; [done|]. split; lia.
    + by rewrite drop_alter_lt by lia.
    + by apply framed_append.
    + apply Forall_alter; [done|]. intros b Hb _.
      assert (b = bc) as -> by congruence. simpl. lia.
  - assert (Hcount : BinContainer.count bc = BinContainer.size bc) by lia.
    assert (Hprefix : sum (take (S (seq_cidx st)) bin_sizes) = sum done).
    { rewrite (sum_take_S _ _ _ Hsize). lia. }
    assert (Hnext : S (seq_cidx st) < n).
    { pose proof (lookup_lt_Some _ _ _ Hbc) as Hc.
      destruct (decide (S (seq_cidx st) < n)) as [|Hge]; [done|].
      assert (S (seq_cidx st) = n) as Heq by lia.
      rewrite Heq in Hprefix. lia. }
    destruct (lookup_lt_is_Some_2 (seq_bins st) (S (seq_cidx st)))
      as [b' Hb']; [lia|].
    rewrite (proj2 (getitem_Ok _ _ _) Hb'). simpl.
    assert (Hfresh : untouched b').
    { eapply (Forall_lookup_1 _ _ 0); [exact Hlater|].
      rewrite lookup_drop, Nat.add_0_r. exact Hb'. }
    destruct Hfresh as [Hi Hc0].
    destruct (Hlook _ _ Hb') as (_ & Hsize' & _).
    assert (Hpos : (1 <= BinContainer.size b')%Z).
    { rewrite list.Forall_forall in Hcaps. apply Hcaps.
      by eapply list_elem_of_lookup_2. }
    eexists. split; [done|]. split; [|split; [|split]]; simpl.
    + exists (BinContainer.append b' 1). rewrite list_lookup_alter_eq, Hb'.
      simpl. rewrite sum_snoc, Hprefix, Hc0. split; [done|]. split; lia.
    + rewrite drop_alter_lt by lia.
      replace (S (S (seq_cidx st))) with (S (seq_cidx st) + 1) by lia.
      rewrite <- drop_drop. by apply Forall_drop.
    + by apply framed_append.
    + apply Forall_alter; [done|]. intros b Hb _.
      assert (b = b') as -> by congruence. simpl. lia.
Qed.

Lemma seq_loop_filling (items : list Z) (st : seq_state) (done : list Z) :
  Forall (fun v => v = 1%Z) items ->
  filling bin_sizes n st done ->
  (sum done + sum items <= total)%Z ->
  exists fin,
    for_each seq_body items st = Ok fin /\ filling bin_sizes n fin (done ++ items).
Proof using Hcaps Hcover.
  intros Hones. revert st done.
  induction Hones as [|x items -> Hones IH]; intros st done Hinv Hroom.
  - exists st. by rewrite app_nil_r.
  - rewrite sum_cons in Hroom.
    pose proof (sum_ones items Hones) as Hrest.
    destruct (seq_body_filling st done Hinv ltac:(lia)) as (st' & Hbody & Hinv').
    simpl. rewrite Hbody. simpl.
    destruct (IH st' (done ++ [1%Z]) Hinv') as (fin & Hfin & Hinv'').
    { rewrite sum_snoc. lia. }
    exists fin. split; [done|]. by rewrite <- app_assoc in Hinv''.
Qed.

End UnitItemsSequential.

Lemma sorted_constant (values : list Z) (flag : bool) (v : Z) :
  Forall (fun x => x = v) values -> sorted values flag = values.
Proof.
  intros Hall.
  assert (Hrep : forall l, Forall (fun x => x = v) l -> l = replicate (length l) v).
  { induction 1 as [|x l -> _ IH]; [done|]. simpl. by rewrite <- IH. }
  assert (Hs : Forall (fun x => x = v) (sorted values flag))
    by (by rewrite sorted_Permutation).
  rewrite (Hrep _ Hs), sorted_length. symmetry. by apply Hrep.
Qed.

(** X18. With items of size 1 and capacities of at least 1 that cover the
    demand, [order_sequentially] returns normally and leaves no bin over
    its capacity: a bin is left only when it is exactly full. *)
Theorem order_sequentially_unit_items (values bin_sizes : list Z)
    (large_items_at_top : bool) :
  Forall (fun v => v = 1%Z) values ->
  Forall (fun c => 1 <= c)%Z bin_sizes ->
  (sum values <= sum bin_sizes)%Z ->
  exists bins,
    order_sequentially values bin_sizes large_items_at_top = Ok bins
    /\ placed_items bins = values
    /\ Forall (fun b => (BinContainer.count b <= BinContainer.size b)%Z) bins.
Proof.
  intros Hones Hcaps Hsum.
  destruct values as [|v values].
  { exists []. repeat split; constructor. }
  pose proof (compute_bin_count_post (v :: values) bin_sizes) as Hpost.
  destruct (compute_bin_count (v :: values) bin_sizes) as [n|[]|] eqn:Hn;
    simpl in Hpost; try done.
  2:{ specialize (Hpost (length bin_sizes)). rewrite firstn_all in Hpost. lia. }
  destruct Hpost as (Hle & Hcover & _).
  assert (Hpos : 0 < n).
  { eapply compute_bin_count_pos; [exact Hn|].
    rewrite (sum_ones _ Hones). simpl length. lia. }
  destruct (allocate_bins_Ok bin_sizes n Hle) as (bin_list & Hb & Hlen & Hlook).
  destruct (allocate_bins_framed _ _ _ Hb) as [Hframe Hfresh].
  destruct (Hlook 0 Hpos) as (sz & Hsz & Hb0).
  assert (Hsz1 : (1 <= sz)%Z).
  { rewrite list.Forall_forall in Hcaps. apply Hcaps.
    by eapply list_elem_of_lookup_2. }
  destruct (seq_loop_filling bin_sizes n (sum (v :: values)) Hcaps Hcover
              (v :: values) {| seq_bins := bin_list; seq_cidx := 0 |} [] Hones)
    as (fin & Hloop & (_ & _ & _ & Hwithin)).
  { split; [|split; [|split]]; simpl.
    - exists (BinContainer.init 0 sz). simpl. rewrite sum_nil. repeat split; [done|lia].
    - by apply Forall_drop.
    - done.
    - apply Forall_lookup. intros j b Hj.
      destruct (Hlook j) as (sz' & Hsz' & Hbj);
        [apply lookup_lt_Some in Hj; lia|].
      assert (b = BinContainer.init j sz') as -> by congruence. simpl.
      rewrite list.Forall_forall in Hcaps.
      assert (1 <= sz')%Z by (apply Hcaps; by eapply list_elem_of_lookup_2).
      lia. }
  { rewrite sum_nil. lia. }
  assert (Hrun : order_sequentially (v :: values) bin_sizes large_items_at_top
                 = Ok (seq_bins fin)).
  { unfold order_sequentially. rewrite Hn. simpl. rewrite Hb. simpl.
    destruct (split_values_by_size_concat (v :: values) large_items_at_top)
      as (groups & -> & Hcat).
    simpl. rewrite for_each_nested, Hcat.
    rewrite (sorted_constant _ _ 1%Z Hones), Hloop. done. }
  exists (seq_bins fin). split; [done|]. split; [|done].
  apply order_sequentially_invariant in Hrun as (_ & _ & -> & _).
  by apply (sorted_constant _ _ 1%Z).
Qed.

Lemma order_sequentially_unit_items_witness :
  exists bins,
    order_sequentially (replicate 7 1%Z) [3; 2; 4; 9]%Z true = Ok bins
    /\ placed_items bins = replicate 7 1%Z
    /\ Forall (fun b => (BinContainer.count b <= BinContainer.size b)%Z) bins.
Proof.
  apply (order_sequentially_unit_items (replicate 7 1%Z) [3; 2; 4; 9]%Z true).
  - repeat constructor.
  - repeat constructor; vm_compute; discriminate.
  - vm_compute. discriminate.
Defined.

Section UnitItemsRoundRobin.
Variables (bin_sizes : list Z) (n N : nat).
Hypothesis Hpos : 0 < n.
Hypothesis Hroom : forall j c,
  j < n -> bin_sizes !! j = Some c ->
  (Z.of_nat N <= Z.of_nat j + Z.of_nat n * c)%Z.

Lemma rr_body_taking_turns (st : rr_state) :
  taking_turns bin_sizes n st ->
  rr_nidx st < N ->
  exists st', rr_body n st 1 = Ok st' /\ taking_turns bin_sizes n st'.
Proof using Hpos Hroom.
  intros (Hnone & Hframe & Hshare & Hcount) Hk.
  destruct (framed_lookup _ _ _ Hframe) as [Hlen Hlook].
  destruct (rr_body_Ok n st 1 Hpos Hlen) as [st' Hbody].
  exists st'. split; [done|].
  apply rr_body_inv in Hbody as (_ & Hoff & Hn').
  pose proof (offers_step _ _ _ _ Hoff) as Hstep.
  destruct Hoff as [_ (b & Hb & Hcase)].
  pose proof (Nat.mod_upper_bound (rr_nidx st) n ltac:(lia)) as Ht.
  destruct (Hlook _ _ Hb) as (Hidx & Hsize & _).
  assert (Hfit : can_add_to_bin b 1 = true).
  { unfold can_add_to_bin. apply Z.leb_le.
    rewrite (Forall_lookup_1 _ _ _ _ Hcount Hb).
    pose proof (Hroom _ _ Ht Hsize) as Hc.
    pose proof (Hshare _ Ht) as Ho. unfold offers in Ho.
    rewrite Hb, Hnone in Ho. simpl in Ho. rewrite Nat.add_0_r in Ho.
    pose proof (Nat.div_mod_eq (rr_nidx st) n) as Hdiv.
    assert (length (BinContainer.items b) = rr_nidx st / n) as -> by nia.
    nia. }
  rewrite Hfit in Hcase. destruct Hcase as [Hbins Hnot].
  split; [|split; [|split]].
  - by rewrite Hnot.
  - rewrite Hbins. by apply framed_append.
  - intros j Hj. rewrite Hn', Hstep.
    + apply share_step; [done|]. by apply Hshare.
    + intros b0 Hb0. by apply Hlook.
  - rewrite Hbins. apply Forall_alter; [done|]. intros b0 Hb0 Hc0. simpl.
    rewrite Hc0, length_app. simpl. lia.
Qed.

Lemma rr_loop_taking_turns (items : list Z) (st : rr_state) :
  Forall (fun v => v = 1%Z) items ->
  taking_turns bin_sizes n st ->
  rr_nidx st + length items <= N ->
  exists fin,
    for_each (rr_body n) items st = Ok fin /\ taking_turns bin_sizes n fin.
Proof using Hpos Hroom.
  intros Hones. revert st.
  induction Hones as [|x items -> Hones IH]; intros st Hinv Hle.
  - exists st. done.
  - simpl in Hle.
    destruct (rr_body_taking_turns st Hinv ltac:(lia)) as (st' & Hbody & Hinv').
    simpl. rewrite Hbody. simpl.
    apply IH; [done|].
    apply rr_body_inv in Hbody as (_ & _ & ->). lia.
Qed.

End UnitItemsRoundRobin.

(** X19. With items of size 1, [evenly_distribute] skips nothing as soon
    as every planned bin can hold its share of the turns, that is when bin
    [j] of capacity [c] satisfies [len(values) <= j + bin_count * c]. *)
Theorem evenly_distribute_unit_items_no_skip (values bin_sizes : list Z)
    (large_items_at_top : bool) (bin_count : nat) :
  Forall (fun v => v = 1%Z) values ->
  compute_bin_count values bin_sizes = Ok bin_count ->
  (forall j c,
     j < bin_count -> bin_sizes !! j = Some c ->
     (Z.of_nat (length values) <= Z.of_nat j + Z.of_nat bin_count * c)%Z) ->
  exists fin,
    evenly_distribute_run values bin_sizes large_items_at_top = Ok fin
    /\ rr_notices fin = []
    /\ placed_items (rr_bins fin) ≡ₚ values.
Proof.
  intros Hones Hn Hroom.
  pose proof (compute_bin_count_post values bin_sizes) as Hpost.
  rewrite Hn in Hpost. destruct Hpost as (Hle & _ & _).
  destruct (allocate_bins_Ok bin_sizes bin_count Hle) as (bin_list & Hb & _ & _).
  destruct (allocate_bins_framed _ _ _ Hb) as [Hframe Hfresh].
  destruct (split_values_by_size_concat values large_items_at_top)
    as (groups & Hg & Hcat).
  rewrite (evenly_distribute_run_unfold _ _ _ _ _ _ Hn Hb Hg), Hcat.
  rewrite (sorted_constant _ _ 1%Z Hones).
  assert (Hfin : exists fin,
            for_each (rr_body bin_count) values (rr_init bin_list) = Ok fin
            /\ rr_notices fin = []).
  { destruct values as [|v values]; [by exists (rr_init bin_list)|].
    assert (Hpos : 0 < bin_count).
    { eapply compute_bin_count_pos; [exact Hn|].
      rewrite (sum_ones _ Hones). simpl length. lia. }
    destruct (rr_loop_taking_turns bin_sizes bin_count (length (v :: values))
                Hpos Hroom (v :: values) (rr_init bin_list) Hones)
      as (fin & Hloop & Hnone & _); [|simpl; lia|by exists fin].
    split; [done|]. split; [done|]. split.
    - intros j Hj. unfold offers. simpl.
      destruct (bin_list !! j) as [b|] eqn:Hbj; simpl; [|lia].
      destruct (Forall_lookup_1 _ _ _ _ Hfresh Hbj) as [-> _]. simpl. lia.
    - eapply List.Forall_impl; [|exact Hfresh].
      intros b [-> ->]. done. }
  destruct Hfin as (fin & Hloop & Hnone).
  exists fin. split; [done|]. split; [done|].
  pose proof (rr_loop_balance _ _ _ _ Hloop) as Hbal.
  unfold dropped_items in Hbal. rewrite Hnone in Hbal. simpl in Hbal.
  rewrite (placed_items_untouched _ Hfresh) in Hbal.
  by rewrite app_nil_r in Hbal.
Qed.

Lemma evenly_distribute_unit_items_no_skip_witness :
  exists fin,
    evenly_distribute_run (replicate 45 1%Z) [30; 30; 30; 30]%Z false = Ok fin
    /\ rr_notices fin = []
    /\ placed_items (rr_bins fin) ≡ₚ replicate 45 1%Z.
Proof.
  apply (evenly_distribute_unit_items_no_skip (replicate 45 1%Z)
           [30; 30; 30; 30]%Z false 2).
  - repeat constructor.
  - reflexivity.
  - intros [|[|j]] c Hj Hc; [| |lia]; injection Hc as <-; vm_compute; discriminate.
Defined.

(** ** What the notices say *)

Lemma rr_loop_notices (bin_sizes : list Z) (n : nat) :
  forall items st fin (done : list Z),
    (framed bin_sizes n (rr_bins st)
     /\ Forall (fun p => can_add_to_bin (snd p) (fst p) = false
                         /\ BinContainer.index (snd p) < n
                         /\ bin_sizes !! BinContainer.index (snd p)
                            = Some (BinContainer.size (snd p)))
          (rr_notices st)) ->
    for_each (rr_body n) items st = Ok fin ->
    (framed bin_sizes n (rr_bins fin)
     /\ Forall (fun p => can_add_to_bin (snd p) (fst p) = false
                         /\ BinContainer.index (snd p) < n
                         /\ bin_sizes !! BinContainer.index (snd p)
                            = Some (BinContainer.size (snd p)))
          (rr_notices fin)).
Proof.
  apply (for_each_invariant (rr_body n)
    (fun st (_ : list Z) =>
       framed bin_sizes n (rr_bins st)
       /\ Forall (fun p => can_add_to_bin (snd p) (fst p) = false
                           /\ BinContainer.index (snd p) < n
                           /\ bin_sizes !! BinContainer.index (snd p)
                              = Some (BinContainer.size (snd p)))
            (rr_notices st))).
  intros st item st' _ [Hframe Hnot] Hbody.
  apply rr_body_inv in Hbody as (_ & [_ (b & Hb & Hcase)] & _).
  destruct (framed_lookup _ _ _ Hframe) as [Hlen Hlook].
  destruct (can_add_to_bin b item) eqn:Hfit; destruct Hcase as [-> ->].
  - split; [by apply framed_append|done].
  - split; [done|]. apply Forall_app. split; [done|].
    constructor; [|constructor]. simpl.
    destruct (Hlook _ _ Hb) as (Hidx & Hsize & _). rewrite Hidx.
    split; [done|]. split; [|done].
    apply lookup_lt_Some in Hb. lia.
Qed.

(** Every notice comes from a turn: it shows the bin assigned to that turn
    as the loop state held it just before. *)
Lemma rr_loop_notice_origin (n : nat) (bin_list : list BinContainer.t) :
  forall order fin,
    for_each (rr_body n) order (rr_init bin_list) = Ok fin ->
    Forall (fun p =>
              exists k st,
                order !! k = Some (fst p)
                /\ rr_before n bin_list order k = Ok st
                /\ rr_bins st !! (k mod n) = Some (snd p))
      (rr_notices fin).
Proof.
  intros order fin Hrun.
  cut (for_each (rr_body n) ([] ++ order) (rr_init bin_list) = Ok fin
       /\ Forall (fun p =>
                    exists k st,
                      ([] ++ order) !! k = Some (fst p)
                      /\ rr_before n bin_list ([] ++ order) k = Ok st
                      /\ rr_bins st !! (k mod n) = Some (snd p))
            (rr_notices fin)); [by intros [_ H]|].
  revert Hrun.
  apply (for_each_invariant (rr_body n)
    (fun st done =>
       for_each (rr_body n) done (rr_init bin_list) = Ok st
       /\ Forall (fun p =>
                    exists k st0,
                      done !! k = Some (fst p)
                      /\ rr_before n bin_list done k = Ok st0
                      /\ rr_bins st0 !! (k mod n) = Some (snd p))
            (rr_notices st))); [|by split].
  intros st item st' done [Hdone Hnot] Hbody.
  assert (Hdone' : for_each (rr_body n) (done ++ [item]) (rr_init bin_list) = Ok st').
  { rewrite for_each_snoc, Hdone. done. }
  split; [done|].
  assert (Hold : Forall (fun p =>
                    exists k st0,
                      (done ++ [item]) !! k = Some (fst p)
                      /\ rr_before n bin_list (done ++ [item]) k = Ok st0
                      /\ rr_bins st0 !! (k mod n) = Some (snd p))
                   (rr_notices st)).
  { eapply List.Forall_impl; [|exact Hnot].
    intros p (k & st0 & Hk & Hbefore & Hbin).
    pose proof (lookup_lt_Some _ _ _ Hk) as Hlt.
    exists k, st0. split; [by rewrite lookup_app_l|].
    split; [by rewrite rr_before_snoc_lt by lia|done]. }
  destruct (rr_loop_trace _ _ _ _ Hdone) as [Hnidx _].
  apply rr_body_inv in Hbody as (_ & [_ (b & Hb & Hcase)] & _).
  destruct (can_add_to_bin b item); destruct Hcase as [_ ->]; [done|].
  apply Forall_app. split; [done|]. constructor; [|constructor]. simpl.
  exists (length done), st. split; [by rewrite list_lookup_middle|].
  split; [|by rewrite <- Hnidx].
  unfold rr_before. by rewrite take_app_length.
Qed.

(** X20. Every overflow notice of [evenly_distribute] is accurate: the
    item it names is the item of some turn, the bin it shows is the bin
    assigned to that turn, one of the planned bins, in the state it had
    when the item was offered, and the item did not fit it. *)
Theorem evenly_distribute_notices_accurate (values bin_sizes : list Z)
    (large_items_at_top : bool) (fin : rr_state) :
  evenly_distribute_run values bin_sizes large_items_at_top = Ok fin ->
  exists bin_count bin_list groups,
    compute_bin_count values bin_sizes = Ok bin_count
    /\ allocate_bins bin_sizes bin_count = Ok bin_list
    /\ split_values_by_size values large_items_at_top = Ok groups
    /\ Forall (fun p =>
                 fst p ∈ values
                 /\ can_add_to_bin (snd p) (fst p) = false
                 /\ BinContainer.index (snd p) < bin_count
                 /\ bin_sizes !! BinContainer.index (snd p)
                    = Some (BinContainer.size (snd p))
                 /\ exists k st,
                      concat groups !! k = Some (fst p)
                      /\ rr_before bin_count bin_list (concat groups) k = Ok st
                      /\ k mod bin_count = BinContainer.index (snd p)
                      /\ rr_bins st !! (k mod bin_count) = Some (snd p))
         (rr_notices fin).
Proof.
  intros Hrun.
  apply evenly_distribute_run_inv in Hrun
    as (n & bin_list & groups & Hn & Hb & Hg & Hcat & Hloop).
  destruct (allocate_bins_framed _ _ _ Hb) as [Hframe Hfresh].
  exists n, bin_list, groups.
  split; [done|]. split; [done|]. split; [done|].
  pose proof (rr_loop_balance _ _ _ _ Hloop) as Hbal.
  pose proof (rr_loop_notice_origin _ _ _ _ Hloop) as Horigin.
  pose proof Hloop as Hnot.
  eapply (rr_loop_notices bin_sizes n _ _ _ []) in Hnot; [|by split].
  destruct Hnot as [_ Hnot].
  apply Forall_lookup. intros i p Hp.
  destruct (Forall_lookup_1 _ _ _ _ Hnot Hp) as (Hfit & Hidx & Hsize).
  destruct (Forall_lookup_1 _ _ _ _ Horigin Hp) as (k & st & Hk & Hbefore & Hbin).
  split; [|split; [done|split; [done|split; [done|]]]].
  - rewrite <- (sorted_Permutation large_items_at_top values), <- Hcat.
    by eapply list_elem_of_lookup_2.
  - exists k, st. split; [done|]. split; [done|]. split; [|done].
    unfold rr_before in Hbefore.
    eapply (rr_loop_invariant bin_sizes n _ _ _ []) in Hbefore.
    + destruct Hbefore as [Hframe' _].
      destruct (framed_lookup _ _ _ Hframe') as [_ Hlook].
      by destruct (Hlook _ _ Hbin) as (-> & _).
    + split; [done|]. eapply List.Forall_impl; [|exact Hfresh].
      intros b0 [-> _]. constructor.
Qed.

Lemma evenly_distribute_notices_accurate_witness :
  exists fin bin_count bin_list groups,
    evenly_distribute_run [2; 1; 2; 1]%Z [2; 4]%Z false = Ok fin
    /\ compute_bin_count [2; 1; 2; 1]%Z [2; 4]%Z = Ok bin_count
    /\ allocate_bins [2; 4]%Z bin_count = Ok bin_list
    /\ split_values_by_size [2; 1; 2; 1]%Z false = Ok groups
    /\ Forall (fun p =>
                 fst p ∈ [2; 1; 2; 1]%Z
                 /\ can_add_to_bin (snd p) (fst p) = false
                 /\ BinContainer.index (snd p) < bin_count
                 /\ [2; 4]%Z !! BinContainer.index (snd p)
                    = Some (BinContainer.size (snd p))
                 /\ exists k st,
                      concat groups !! k = Some (fst p)
                      /\ rr_before bin_count bin_list (concat groups) k = Ok st
                      /\ k mod bin_count = BinContainer.index (snd p)
                      /\ rr_bins st !! (k mod bin_count) = Some (snd p))
         (rr_notices fin).
Proof.
  eexists.
  destruct (evenly_distribute_notices_accurate [2; 1; 2; 1]%Z [2; 4]%Z false _
              eq_refl) as (n & bin_list & groups & H).
  exists n, bin_list, groups. split; [reflexivity|exact H].
Defined.

(** ** The capacity of the returned bins *)

(** X21. The bins a policy returns have just enough capacity: their
    capacities add up to at least the total item size, and those of any
    proper prefix of them add up to less. *)
Theorem returned_bins_just_enough (values bin_sizes : list Z)
    (large_items_at_top : bool) (bins : list BinContainer.t) :
  order_sequentially values bin_sizes large_items_at_top = Ok bins
  \/ evenly_distribute values bin_sizes large_items_at_top = Ok bins ->
  (sum values <= sum (BinContainer.size <$> bins))%Z
  /\ forall k, k < length bins ->
       (sum (BinContainer.size <$> take k bins) < sum values)%Z.
Proof.
  intros Hrun.
  assert (exists n, compute_bin_count values bin_sizes = Ok n
                    /\ framed bin_sizes n bins) as (n & Hn & Hframe).
  { destruct Hrun as [Hrun|Hrun].
    - apply order_sequentially_invariant in Hrun as (n & Hn & _ & _ & Hframe).
      by exists n.
    - apply evenly_distribute_invariant in Hrun as (n & Hn & Hframe & _).
      by exists n. }
  pose proof (compute_bin_count_post values bin_sizes) as Hpost.
  rewrite Hn in Hpost. destruct Hpost as (_ & Hcover & Hbelow).
  destruct (framed_lookup _ _ _ Hframe) as [Hlen _].
  destruct Hframe as (_ & Hsize & _).
  split; [by rewrite Hsize|].
  intros k Hk. rewrite fmap_take, Hsize, take_take.
  rewrite Nat.min_l by lia. apply Hbelow. lia.
Qed.

Lemma returned_bins_just_enough_witness :
  let bins := [BinContainer.mk 0 3 3 [1; 2]; BinContainer.mk 1 4 3 [3]]%Z in
  (sum [3; 1; 2]%Z <= sum (BinContainer.size <$> bins))%Z
  /\ forall k, k < length bins ->
       (sum (BinContainer.size <$> take k bins) < sum [3; 1; 2]%Z)%Z.
Proof.
  intros bins.
  apply (returned_bins_just_enough [3; 1; 2]%Z [3; 4; 9]%Z false bins).
  left. reflexivity.
Defined.
